(** * KaviosPix server: albums, sharing and images

    A shallow embedding of the Express handlers of the KaviosPix API
    (the application entry point with its [verifyJWT] middleware,
    [routes/album.js], the image router and the Mongoose schemas) and the
    properties of its access control, sharing, favourites, comments and
    deletion.

    Conventions of the embedding.
    - A JavaScript string is a [string]; each [ascii] stands for one code
      unit in the range 0..255.  Code units above 0xFF are outside the
      embedding.
    - A value read from a request body, of a type the handler has yet to
      inspect, is a [Js.Value].
    - A MongoDB collection is the list of its documents in insertion
      order; [findOne] returns the first match.
    - What the handlers obtain from outside (the uuid generator, the
      clock, the Cloudinary gateway) is an argument of the handler; what
      they call in libraries whose code is not part of the repository
      (jsonwebtoken, [JSON.parse], the Mongoose casts) is a field of the
      [Driver] record. *)

From Stdlib Require Import String Ascii List Bool ZArith Lia.
From Stdlib Require Import Sorting.Sorted Sorting.Permutation.
Import ListNotations.
Open Scope string_scope.

(** ** JavaScript values and string primitives *)

Module Js.

(** The values a JSON or multipart body field can hold.  [Arr] is an
    array of strings, the only arrays the handlers are written for;
    [Obj] stands for any other object. *)
Inductive Value : Type :=
| Undefined
| Null
| Bool (b : bool)
| Num (n : Z)
| Str (s : string)
| Arr (items : list string)
| Obj.

(** ToBoolean: [if (v)], [!v], [v || w]. *)
Definition truthy (v : Value) : bool :=
  match v with
  | Undefined | Null => false
  | Bool b => b
  | Num n => negb (n =? 0)%Z
  | Str s => negb (s =? "")
  | Arr _ | Obj => true
  end.

(** [a || b] *)
Definition or (a b : Value) : Value := if truthy a then a else b.

(** [Array.isArray(v)] *)
Definition Array_isArray (v : Value) : bool :=
  match v with Arr _ => true | _ => false end.

(** [typeof v === 'string'] *)
Definition typeof_string (v : Value) : bool :=
  match v with Str _ => true | _ => false end.

(** [v !== undefined] *)
Definition defined (v : Value) : bool :=
  match v with Undefined => false | _ => true end.

(** [arr.includes(x)] on an array of strings. *)
Definition includes (arr : list string) (x : string) : bool :=
  existsb (String.eqb x) arr.

(** White space and line terminators of ECMAScript below U+0100:
    TAB, LF, VT, FF, CR, SP and NBSP.  The same set is the class [\s]
    of regular expressions and what [trim] strips. *)
Definition isWhiteSpace (c : ascii) : bool :=
  let n := nat_of_ascii c in
  (Nat.leb 9 n && Nat.leb n 13) || Nat.eqb n 32 || Nat.eqb n 160.

Fixpoint trimStart (s : string) : string :=
  match s with
  | EmptyString => EmptyString
  | String c r => if isWhiteSpace c then trimStart r else s
  end.

Fixpoint trimEnd (s : string) : string :=
  match s with
  | EmptyString => EmptyString
  | String c r =>
      let r' := trimEnd r in
      if isWhiteSpace c && (r' =? "") then EmptyString else String c r'
  end.

(** [s.trim()] *)
Definition trim (s : string) : string := trimEnd (trimStart s).

(** [s.split(sep)] for a separator of one character. *)
Fixpoint split (sep : ascii) (s : string) : list string :=
  match s with
  | EmptyString => [EmptyString]
  | String c r =>
      if Ascii.eqb c sep then EmptyString :: split sep r
      else match split sep r with
           | h :: t => String c h :: t
           | [] => [String c EmptyString]
           end
  end.

(** *** Regular expressions

    The fragment the repository uses: character classes, sequence and
    [+], matched against the whole input ([^...$] without flags).
    Matching is by Brzozowski derivatives. *)
Inductive RegExp : Type :=
| Never
| Empty
| Class (p : ascii -> bool)
| Seq (r1 r2 : RegExp)
| Alt (r1 r2 : RegExp)
| Star (r : RegExp).

Definition Plus (r : RegExp) : RegExp := Seq r (Star r).
Definition Char (c : ascii) : RegExp := Class (Ascii.eqb c).

Fixpoint nullable (r : RegExp) : bool :=
  match r with
  | Never => false
  | Empty => true
  | Class _ => false
  | Seq r1 r2 => nullable r1 && nullable r2
  | Alt r1 r2 => nullable r1 || nullable r2
  | Star _ => true
  end.

Fixpoint deriv (c : ascii) (r : RegExp) : RegExp :=
  match r with
  | Never => Never
  | Empty => Never
  | Class p => if p c then Empty else Never
  | Seq r1 r2 =>
      if nullable r1 then Alt (Seq (deriv c r1) r2) (deriv c r2)
      else Seq (deriv c r1) r2
  | Alt r1 r2 => Alt (deriv c r1) (deriv c r2)
  | Star r1 => Seq (deriv c r1) (Star r1)
  end.

(** [/^r$/.test(s)] *)
Fixpoint test (r : RegExp) (s : string) : bool :=
  match s with
  | EmptyString => nullable r
  | String c s' => test (deriv c r) s'
  end.

End Js.


(** ** Documents

    The Mongoose schemas [AlbumSchema] and [ImageSchema], and the claims
    of a verified token (the [req.user] of the handlers). *)

Module User.
Record t : Type := {
  email : string;
  userId : string;
  name : string;
  picture : string
}.
End User.

Module Album.
Record t : Type := {
  albumId : string;
  name : string;
  description : string;
  ownerId : string;
  ownerEmail : string;
  sharedWith : list string;
  createdAt : Z
}.

Definition set_description (d : string) (a : t) : t :=
  {| albumId := albumId a; name := name a; description := d;
     ownerId := ownerId a; ownerEmail := ownerEmail a;
     sharedWith := sharedWith a; createdAt := createdAt a |}.

Definition set_sharedWith (l : list string) (a : t) : t :=
  {| albumId := albumId a; name := name a; description := description a;
     ownerId := ownerId a; ownerEmail := ownerEmail a;
     sharedWith := l; createdAt := createdAt a |}.
End Album.

Module Comment.
Record t : Type := {
  userId : string;
  userEmail : string;
  comment : string;
  createdAt : Z
}.
End Comment.

(** The paths [tags] and [isFavorite] are not required: they can hold
    [null], which is [None]. *)
Module Image.
Record t : Type := {
  imageId : string;
  albumId : string;
  name : string;
  filename : string;
  cloudinaryUrl : string;
  cloudinaryPublicId : string;
  tags : option (list string);
  person : string;
  isFavorite : option bool;
  comments : list Comment.t;
  size : Z;
  uploadedAt : Z;
  uploadedBy : string
}.

Definition set_isFavorite (b : option bool) (i : t) : t :=
  {| imageId := imageId i; albumId := albumId i; name := name i;
     filename := filename i; cloudinaryUrl := cloudinaryUrl i;
     cloudinaryPublicId := cloudinaryPublicId i; tags := tags i;
     person := person i; isFavorite := b; comments := comments i;
     size := size i; uploadedAt := uploadedAt i;
     uploadedBy := uploadedBy i |}.

Definition set_comments (l : list Comment.t) (i : t) : t :=
  {| imageId := imageId i; albumId := albumId i; name := name i;
     filename := filename i; cloudinaryUrl := cloudinaryUrl i;
     cloudinaryPublicId := cloudinaryPublicId i; tags := tags i;
     person := person i; isFavorite := isFavorite i; comments := l;
     size := size i; uploadedAt := uploadedAt i;
     uploadedBy := uploadedBy i |}.

(** The tags an image carries: none when the path holds [null]. *)
Definition tagList (i : t) : list string :=
  match tags i with
  | Some l => l
  | None => []
  end.
End Image.

(** The fields of an image that the upload response shows. *)
Module ImageView.
Record t : Type := {
  imageId : string;
  name : string;
  cloudinaryUrl : string;
  tags : option (list string);
  person : string;
  isFavorite : option bool;
  size : Z;
  uploadedAt : Z
}.

Definition project (i : Image.t) : t :=
  {| imageId := Image.imageId i; name := Image.name i;
     cloudinaryUrl := Image.cloudinaryUrl i; tags := Image.tags i;
     person := Image.person i; isFavorite := Image.isFavorite i;
     size := Image.size i; uploadedAt := Image.uploadedAt i |}.
End ImageView.

(** The two collections. *)
Record Db : Type := {
  albums : list Album.t;
  images : list Image.t
}.

Definition emptyDb : Db := {| albums := []; images := [] |}.

(** ** The outside world *)

(** [req.file] as multer leaves it. *)
Record File : Type := {
  originalname : string;
  mimetype : string
}.

(** What the Cloudinary upload resolves with. *)
Record UploadResult : Type := {
  secure_url : string;
  public_id : string;
  bytes : Z
}.

(** Why [jwt.verify] throws. *)
Inductive JwtError : Type :=
| JsonWebTokenError   (* malformed token, invalid signature *)
| TokenExpiredError.

Inductive JwtResult : Type :=
| Decoded (claims : User.t)
| Rejected (e : JwtError).

(** Library calls whose code is not in the repository.  [JSON_parse]
    answers [None] where [JSON.parse] throws a SyntaxError, as it does on
    the empty string.  A Mongoose cast answers [None] where it raises a
    CastError, and [Some None] where it stores [null]; all that is known
    of a cast is that a value of the type of the path is stored as it
    is, and that [null] is stored as [null] on the two paths that are
    not required.  [fileSizeOver limit size] tells whether multer refuses
    a file of [size] bytes under [limits: { fileSize: limit }]: it does
    above the limit and does not below it. *)
Record Driver : Type := {
  jwt_verify : string -> JwtResult;
  JSON_parse : string -> option Js.Value;
  castString : Js.Value -> option string;
  castBoolean : Js.Value -> option (option bool);
  castStringArray : Js.Value -> option (option (list string));
  fileSizeOver : Z -> Z -> bool;
  JSON_parse_empty : JSON_parse "" = None;
  castString_Str : forall s, castString (Js.Str s) = Some s;
  castBoolean_Bool : forall b, castBoolean (Js.Bool b) = Some (Some b);
  castBoolean_Null : castBoolean Js.Null = Some None;
  castStringArray_Arr : forall l, castStringArray (Js.Arr l) = Some (Some l);
  castStringArray_Null : castStringArray Js.Null = Some None;
  fileSizeOver_above :
    forall limit size, (limit < size)%Z -> fileSizeOver limit size = true;
  fileSizeOver_below :
    forall limit size, (size < limit)%Z -> fileSizeOver limit size = false
}.

(** ** Responses *)

(** What a [catch] block can receive. *)
Inductive JsError : Type :=
| TypeError
| ValidationError
| DuplicateKeyError
| UploadError
| FileTooLarge.

Inductive Body : Type :=
| Error (error : string)
| ErrorMessageOr (e : JsError) (fallback : string)
| Message (message : string)
| AlbumCreated (message albumId name description ownerId : string)
               (sharedWith : list string)
| AlbumDoc (album : Album.t)
| AlbumUpdated (message albumId name description : string)
| AlbumShared (message : string) (sharedWith : list string)
| ImageUploaded (message : string) (image : ImageView.t)
| FavoriteUpdated (message : string) (isFavorite : option bool)
| CommentAdded (message : string) (comments : list Comment.t)
| ImageUrl (cloudinaryUrl imageId name : string).

Record Response : Type := {
  status : nat;
  body : Body
}.

(** ** Handlers as state transformers with early return and exceptions *)

Inductive Outcome (A : Type) : Type :=
| Next (a : A) (db : Db)
| Sent (r : Response) (db : Db)
| Thrown (e : JsError) (db : Db).
Arguments Next {A} a db.
Arguments Sent {A} r db.
Arguments Thrown {A} e db.

Definition Handler (A : Type) : Type := Db -> Outcome A.

Definition ret {A : Type} (a : A) : Handler A := fun db => Next a db.

Definition bind {A B : Type} (m : Handler A) (k : A -> Handler B) : Handler B :=
  fun db =>
    match m db with
    | Next a db' => k a db'
    | Sent r db' => Sent r db'
    | Thrown e db' => Thrown e db'
    end.

Declare Scope handler_scope.
Delimit Scope handler_scope with handler.
Notation "x <- m ;; k" := (bind m (fun x => k))
  (at level 100, m at next level, right associativity) : handler_scope.
Notation "m ;; k" := (bind m (fun _ => k))
  (at level 100, right associativity) : handler_scope.
Open Scope handler_scope.

(** [return res.status(status).json(body)] *)
Definition send {A : Type} (status : nat) (body : Body) : Handler A :=
  fun db => Sent {| status := status; body := body |} db.

Definition throw {A : Type} (e : JsError) : Handler A :=
  fun db => Thrown e db.

(** [if (c) { return ... }] *)
Definition when (c : bool) (m : Handler unit) : Handler unit :=
  if c then m else ret tt.

(** [if (!x) { return res.status(status).json({ error }) }] on the result
    of a lookup. *)
Definition orSend {A : Type} (x : option A) (status : nat) (error : string)
  : Handler A :=
  match x with
  | Some a => ret a
  | None => send status (Error error)
  end.

(** A value through a cast of the schema; the CastError surfaces when the
    document is saved. *)
Definition cast {A : Type} (x : option A) : Handler A :=
  match x with
  | Some a => ret a
  | None => throw ValidationError
  end.

(** [try { m } catch (error) { res.status(500).json(onError error) }] *)
Definition try_catch (m : Handler Response) (onError : JsError -> Body)
  : Db -> Response * Db :=
  fun db =>
    match m db with
    | Next r db' => (r, db')
    | Sent r db' => (r, db')
    | Thrown e db' => ({| status := 500; body := onError e |}, db')
    end.

(** [catch (error) { res.status(500).json({ error: msg }) }] *)
Definition failed (msg : string) (e : JsError) : Body := Error msg.

(** ** Collections *)

Definition nonempty (s : string) : bool := negb (s =? "").

Fixpoint replaceFirst {A : Type} (p : A -> bool) (y : A) (l : list A) : list A :=
  match l with
  | [] => []
  | x :: r => if p x then y :: r else x :: replaceFirst p y r
  end.

Fixpoint removeFirst {A : Type} (p : A -> bool) (l : list A) : list A :=
  match l with
  | [] => []
  | x :: r => if p x then r else x :: removeFirst p r
  end.

Definition set_albums (l : list Album.t) (db : Db) : Db :=
  {| albums := l; images := images db |}.

Definition set_images (l : list Image.t) (db : Db) : Db :=
  {| albums := albums db; images := l |}.

(** The [required: true] paths of [AlbumSchema]; on a String path the
    validator rejects the empty string. *)
Definition AlbumSchema_required (a : Album.t) : bool :=
  nonempty (Album.albumId a) && nonempty (Album.name a)
  && nonempty (Album.ownerId a) && nonempty (Album.ownerEmail a).

(** The [required: true] paths of [ImageSchema]. *)
Definition ImageSchema_required (i : Image.t) : bool :=
  nonempty (Image.imageId i) && nonempty (Image.albumId i)
  && nonempty (Image.name i) && nonempty (Image.filename i)
  && nonempty (Image.cloudinaryUrl i) && nonempty (Image.cloudinaryPublicId i)
  && nonempty (Image.uploadedBy i).

Definition album_is (albumId : string) (a : Album.t) : bool :=
  Album.albumId a =? albumId.

Definition image_is (imageId : string) (i : Image.t) : bool :=
  Image.imageId i =? imageId.

Definition image_in (albumId : string) (i : Image.t) : bool :=
  Image.albumId i =? albumId.

Definition image_at (imageId albumId : string) (i : Image.t) : bool :=
  image_is imageId i && image_in albumId i.

(** [Album.findOne({ albumId })] *)
Definition Album_findOne (albumId : string) : Handler (option Album.t) :=
  fun db => Next (find (album_is albumId) (albums db)) db.

(** [album.save()] on a new document: validation, then an insert under
    the unique index on [albumId]. *)
Definition Album_insert (a : Album.t) : Handler unit :=
  fun db =>
    if negb (AlbumSchema_required a) then Thrown ValidationError db
    else if existsb (album_is (Album.albumId a)) (albums db)
    then Thrown DuplicateKeyError db
    else Next tt (set_albums (albums db ++ [a]) db).

(** [album.save()] on a document that [Album.findOne({ albumId })]
    returned: the first document with that [albumId] is replaced (no
    handler changes [albumId]). *)
Definition Album_save (a : Album.t) : Handler unit :=
  fun db =>
    Next tt (set_albums (replaceFirst (album_is (Album.albumId a)) a (albums db)) db).

(** [Album.deleteOne({ albumId })] *)
Definition Album_deleteOne (albumId : string) : Handler unit :=
  fun db => Next tt (set_albums (removeFirst (album_is albumId) (albums db)) db).

(** [Image.findOne({ imageId, albumId })] *)
Definition Image_findOne (imageId albumId : string) : Handler (option Image.t) :=
  fun db =>
    Next (find (image_at imageId albumId) (images db)) db.

(** [image.save()] on a new document. *)
Definition Image_insert (i : Image.t) : Handler unit :=
  fun db =>
    if negb (ImageSchema_required i) then Thrown ValidationError db
    else if existsb (image_is (Image.imageId i)) (images db)
    then Thrown DuplicateKeyError db
    else Next tt (set_images (images db ++ [i]) db).

(** [image.save()] on a document that
    [Image.findOne({ imageId, albumId })] returned. *)
Definition Image_save (i : Image.t) : Handler unit :=
  fun db =>
    Next tt (set_images
               (replaceFirst (image_at (Image.imageId i) (Image.albumId i))
                  i (images db)) db).

(** [Image.deleteOne({ imageId })] *)
Definition Image_deleteOne (imageId : string) : Handler unit :=
  fun db => Next tt (set_images (removeFirst (image_is imageId) (images db)) db).

(** [Image.deleteMany({ albumId })] *)
Definition Image_deleteMany (albumId : string) : Handler unit :=
  fun db =>
    Next tt (set_images (filter (fun i => negb (image_in albumId i)) (images db)) db).

(** ** Access predicates *)

(** [album.ownerId === req.user.userId ||
     album.sharedWith.includes(req.user.email)] *)
Definition hasAccess (user : User.t) (album : Album.t) : bool :=
  (Album.ownerId album =? User.userId user)
  || Js.includes (Album.sharedWith album) (User.email user).

(** [album.ownerId === req.user.userId ||
     image.uploadedBy === req.user.userId] *)
Definition canDelete (user : User.t) (album : Album.t) (image : Image.t) : bool :=
  (Album.ownerId album =? User.userId user)
  || (Image.uploadedBy image =? User.userId user).

(** ** routes/album.js *)

Section AlbumRoutes.
Variable D : Driver.
Variable user : User.t.

(** POST / *)
Definition createAlbum (uuidv4 : string) (now : Z) (name description : Js.Value)
  : Db -> Response * Db :=
  try_catch
    (when (negb (Js.truthy name))
          (send 400 (Error "Album name is required")) ;;
     name' <- cast (castString D name) ;;
     description' <- cast (castString D (Js.or description (Js.Str ""))) ;;
     let album :=
       {| Album.albumId := uuidv4;
          Album.name := name';
          Album.description := description';
          Album.ownerId := User.userId user;
          Album.ownerEmail := User.email user;
          Album.sharedWith := [];
          Album.createdAt := now |} in
     Album_insert album ;;
     send 201 (AlbumCreated "Album created successfully"
                 (Album.albumId album) (Album.name album)
                 (Album.description album) (Album.ownerId album)
                 (Album.sharedWith album)))
    (failed "Failed to create album").

(** GET /:albumId *)
Definition getAlbum (albumId : string) : Db -> Response * Db :=
  try_catch
    (found <- Album_findOne albumId ;;
     album <- orSend found 404 "Album not found" ;;
     when (negb (hasAccess user album))
          (send 403 (Error "You do not have access to this album")) ;;
     send 200 (AlbumDoc album))
    (failed "Failed to fetch album").

(** POST /:albumId *)
Definition updateAlbum (albumId : string) (description : Js.Value)
  : Db -> Response * Db :=
  try_catch
    (found <- Album_findOne albumId ;;
     album <- orSend found 404 "Album not found" ;;
     when (negb (Album.ownerId album =? User.userId user))
          (send 403 (Error "Only the album owner can update it")) ;;
     description' <-
       cast (castString D (Js.or description (Js.Str (Album.description album)))) ;;
     let album := Album.set_description description' album in
     Album_save album ;;
     send 200 (AlbumUpdated "Album updated successfully"
                 (Album.albumId album) (Album.name album)
                 (Album.description album)))
    (failed "Failed to update album").

(** [/^[^\s@]+@[^\s@]+\.[^\s@]+$/] *)
Definition notSpaceAt (c : ascii) : bool :=
  negb (Js.isWhiteSpace c || Ascii.eqb c "@").

Definition emailRegex : Js.RegExp :=
  Js.Seq (Js.Plus (Js.Class notSpaceAt))
    (Js.Seq (Js.Char "@")
       (Js.Seq (Js.Plus (Js.Class notSpaceAt))
          (Js.Seq (Js.Char ".") (Js.Plus (Js.Class notSpaceAt))))).

(** The body of the [forEach] of the share handler. *)
Definition pushShared (ownerEmail : string) (sharedWith : list string)
  (email : string) : list string :=
  if negb (Js.includes sharedWith email) && negb (email =? ownerEmail)
  then sharedWith ++ [email]
  else sharedWith.

Definition items (v : Js.Value) : list string :=
  match v with Js.Arr l => l | _ => [] end.

(** POST /:albumId/share *)
Definition shareAlbum (albumId : string) (emails : Js.Value)
  : Db -> Response * Db :=
  try_catch
    (when (negb (Js.truthy emails) || negb (Js.Array_isArray emails)
           || (length (items emails) =? 0)%nat)
          (send 400 (Error "Valid email array is required")) ;;
     found <- Album_findOne albumId ;;
     album <- orSend found 404 "Album not found" ;;
     when (negb (Album.ownerId album =? User.userId user))
          (send 403 (Error "Only the album owner can share it")) ;;
     let validEmails := filter (Js.test emailRegex) (items emails) in
     when (length validEmails =? 0)%nat
          (send 400 (Error "No valid emails provided")) ;;
     let album :=
       Album.set_sharedWith
         (fold_left (pushShared (Album.ownerEmail album)) validEmails
            (Album.sharedWith album))
         album in
     Album_save album ;;
     send 200 (AlbumShared "Album shared successfully" (Album.sharedWith album)))
    (failed "Failed to share album").

(** DELETE /:albumId *)
Definition deleteAlbum (albumId : string) : Db -> Response * Db :=
  try_catch
    (found <- Album_findOne albumId ;;
     album <- orSend found 404 "Album not found" ;;
     when (negb (Album.ownerId album =? User.userId user))
          (send 403 (Error "Only the album owner can delete it")) ;;
     Image_deleteMany albumId ;;
     Album_deleteOne albumId ;;
     send 200 (Message "Album and all associated images deleted successfully"))
    (failed "Failed to delete album").

End AlbumRoutes.

(** ** The upload middleware *)

(** A regular expression used without anchors: [/r/.test(s)] looks for
    a match anywhere in [s]. *)
Definition anyChar : Js.RegExp := Js.Class (fun _ => true).

Definition search (r : Js.RegExp) : Js.RegExp :=
  Js.Seq (Js.Star anyChar) (Js.Seq r (Js.Star anyChar)).

(** The characters of a word, one after the other. *)
Fixpoint word (s : string) : Js.RegExp :=
  match s with
  | EmptyString => Js.Empty
  | String c r => Js.Seq (Js.Char c) (word r)
  end.

(** [/jpeg|jpg|png|gif|webp/] *)
Definition imageWords : list string := ["jpeg"; "jpg"; "png"; "gif"; "webp"].

Definition allowedTypes : Js.RegExp :=
  Js.Alt (word "jpeg")
    (Js.Alt (word "jpg") (Js.Alt (word "png") (Js.Alt (word "gif") (word "webp")))).

(** The [fileFilter] of multer: [true] where it calls [cb(null, true)],
    [false] where it calls [cb] with the error. *)
Definition fileFilter (file : File) : bool :=
  Js.test (search allowedTypes) (mimetype file).

(** A file part of the multipart body as it arrives: what [req.file]
    will be if multer lets it through, and its size in bytes. *)
Record Part : Type := {
  part_file : File;
  part_bytes : Z
}.

(** [limits: { fileSize: 5 * 1024 * 1024 }] *)
Definition fileSizeLimit : Z := 5 * 1024 * 1024.

(** [upload.single('file')]: [inr] is the [req.file] with which the
    handler runs ([None] when the body has no file part).  [inl] is the
    answer of the error-handling middleware of the application,
    [res.status(500).json({ error: err.message || 'Something went wrong!' })],
    to which multer passes the error of [fileFilter] (asked when the part
    starts) or its own error when the part outgrows the limit. *)
Definition upload_single (D : Driver) (part : option Part)
  : Response + option File :=
  match part with
  | None => inr None
  | Some p =>
      if negb (fileFilter (part_file p))
      then inl {| status := 500;
                  body := Error "Only image files (jpg, jpeg, png, gif, webp) are allowed" |}
      else if fileSizeOver D fileSizeLimit (part_bytes p)
      then inl {| status := 500;
                  body := ErrorMessageOr FileTooLarge "Something went wrong!" |}
      else inr (Some (part_file p))
  end.

(** ** The image router *)

Section ImageRoutes.
Variable D : Driver.
Variable user : User.t.

(** [uploadToCloudinary(req.file.buffer, folder)]: the promise resolves
    with the gateway's answer or rejects. *)
Definition uploadToCloudinary (answer : option UploadResult)
  : Handler UploadResult :=
  match answer with
  | Some r => ret r
  | None => throw UploadError
  end.

(** [let parsedTags = []; if (tags) { try { ... } catch { ... } }] *)
Definition parsedTags (tags : Js.Value) : Js.Value :=
  if Js.truthy tags then
    match tags with
    | Js.Str s =>
        match JSON_parse D s with
        | Some v => v
        | None => Js.Arr []
        end
    | _ => tags
    end
  else Js.Arr [].

(** [isFavorite === 'true' || isFavorite === true] *)
Definition isTrue (v : Js.Value) : bool :=
  match v with
  | Js.Str s => s =? "true"
  | Js.Bool b => b
  | _ => false
  end.

(** [new Image({ ... })] with the tags and the person already cast. *)
Definition newImage (uuidv4 : string) (now : Z) (albumId : string)
  (file : File) (uploadResult : UploadResult) (tags : option (list string))
  (person : string) (isFavorite : Js.Value) : Image.t :=
  {| Image.imageId := uuidv4;
     Image.albumId := albumId;
     Image.name := originalname file;
     Image.filename := originalname file;
     Image.cloudinaryUrl := secure_url uploadResult;
     Image.cloudinaryPublicId := public_id uploadResult;
     Image.tags := tags;
     Image.person := person;
     Image.isFavorite := Some (isTrue isFavorite);
     Image.comments := [];
     Image.size := bytes uploadResult;
     Image.uploadedAt := now;
     Image.uploadedBy := User.userId user |}.

(** POST /:albumId/images *)
Definition uploadImage (uuidv4 : string) (now : Z) (albumId : string)
  (file : option File) (gateway : option UploadResult)
  (tags person isFavorite : Js.Value) : Db -> Response * Db :=
  try_catch
    (file <- orSend file 400 "No file uploaded" ;;
     found <- Album_findOne albumId ;;
     album <- orSend found 404 "Album not found" ;;
     when (negb (hasAccess user album))
          (send 403 (Error "You do not have access to this album")) ;;
     let parsedTags := parsedTags tags in
     uploadResult <- uploadToCloudinary gateway ;;
     tags' <- cast (castStringArray D parsedTags) ;;
     person' <- cast (castString D (Js.or person (Js.Str ""))) ;;
     let image :=
       newImage uuidv4 now albumId file uploadResult tags' person' isFavorite in
     Image_insert image ;;
     send 201 (ImageUploaded "Image uploaded successfully" (ImageView.project image)))
    (fun error => ErrorMessageOr error "Failed to upload image").

(** [!image.isFavorite]: [null] is falsy. *)
Definition notFlag (flag : option bool) : bool :=
  match flag with
  | Some b => negb b
  | None => true
  end.

(** PUT /:albumId/images/:imageId/favorite *)
Definition setFavorite (albumId imageId : string) (isFavorite : Js.Value)
  : Db -> Response * Db :=
  try_catch
    (found <- Album_findOne albumId ;;
     album <- orSend found 404 "Album not found" ;;
     when (negb (hasAccess user album))
          (send 403 (Error "You do not have access to this album")) ;;
     found <- Image_findOne imageId albumId ;;
     image <- orSend found 404 "Image not found" ;;
     isFavorite' <-
       cast (if Js.defined isFavorite then castBoolean D isFavorite
             else Some (Some (notFlag (Image.isFavorite image)))) ;;
     let image := Image.set_isFavorite isFavorite' image in
     Image_save image ;;
     send 200 (FavoriteUpdated "Image favorite status updated"
                 (Image.isFavorite image)))
    (failed "Failed to update favorite status").

(** [comment.trim()]: only a string has the method. *)
Definition String_trim (v : Js.Value) : Handler string :=
  match v with
  | Js.Str s => ret (Js.trim s)
  | _ => throw TypeError
  end.

(** [!comment || comment.trim() === ''] *)
Definition emptyComment (comment : Js.Value) : Handler bool :=
  if negb (Js.truthy comment) then ret true
  else (text <- String_trim comment ;; ret (text =? "")).

(** POST /:albumId/images/:imageId/comments *)
Definition addComment (now : Z) (albumId imageId : string) (comment : Js.Value)
  : Db -> Response * Db :=
  try_catch
    (empty <- emptyComment comment ;;
     when empty (send 400 (Error "Comment cannot be empty")) ;;
     found <- Album_findOne albumId ;;
     album <- orSend found 404 "Album not found" ;;
     when (negb (hasAccess user album))
          (send 403 (Error "You do not have access to this album")) ;;
     found <- Image_findOne imageId albumId ;;
     image <- orSend found 404 "Image not found" ;;
     text <- String_trim comment ;;
     let image :=
       Image.set_comments
         (Image.comments image ++
            [{| Comment.userId := User.userId user;
                Comment.userEmail := User.email user;
                Comment.comment := text;
                Comment.createdAt := now |}])
         image in
     Image_save image ;;
     send 200 (CommentAdded "Comment added successfully" (Image.comments image)))
    (failed "Failed to add comment").

(** [cloudinary.uploader.destroy(publicId)]: resolves or rejects. *)
Definition cloudinary_destroy (resolves : bool) : Handler unit :=
  if resolves then ret tt else throw UploadError.

(** [try { m } catch (cloudinaryError) { console.error(...) }] *)
Definition logged (m : Handler unit) : Handler unit :=
  fun db =>
    match m db with
    | Thrown _ db' => Next tt db'
    | o => o
    end.

(** DELETE /:albumId/images/:imageId *)
Definition deleteImage (destroyed : bool) (albumId imageId : string)
  : Db -> Response * Db :=
  try_catch
    (found <- Album_findOne albumId ;;
     album <- orSend found 404 "Album not found" ;;
     found <- Image_findOne imageId albumId ;;
     image <- orSend found 404 "Image not found" ;;
     when (negb (canDelete user album image))
          (send 403 (Error "You do not have permission to delete this image")) ;;
     logged (cloudinary_destroy destroyed) ;;
     Image_deleteOne imageId ;;
     send 200 (Message "Image deleted successfully"))
    (failed "Failed to delete image").

(** GET /:albumId/images/:imageId/url *)
Definition getImageUrl (albumId imageId : string) : Db -> Response * Db :=
  try_catch
    (found <- Album_findOne albumId ;;
     album <- orSend found 404 "Album not found" ;;
     when (negb (hasAccess user album))
          (send 403 (Error "You do not have access to this album")) ;;
     found <- Image_findOne imageId albumId ;;
     image <- orSend found 404 "Image not found" ;;
     send 200 (ImageUrl (Image.cloudinaryUrl image) (Image.imageId image)
                 (Image.name image)))
    (failed "Failed to fetch image URL").

End ImageRoutes.

(** ** The application: credentials and routing *)

Record Request : Type := {
  cookies_jwt_token : Js.Value;
  headers_authorization : option string
}.

(** [req.headers.authorization?.split(' ')[1]] *)
Definition bearer (req : Request) : Js.Value :=
  match headers_authorization req with
  | None => Js.Undefined
  | Some h =>
      match nth_error (Js.split " " h) 1 with
      | Some t => Js.Str t
      | None => Js.Undefined
      end
  end.

(** [jwt.verify(token, process.env.JWT_SECRET)]; a token that is not a
    string is refused as malformed. *)
Definition verify (D : Driver) (token : Js.Value) : JwtResult :=
  match token with
  | Js.Str s => jwt_verify D s
  | _ => Rejected JsonWebTokenError
  end.

(** The middleware of the application: [inl] is the response it sends,
    [inr] the [req.user] with which it calls [next()]. *)
Definition verifyJWT (D : Driver) (req : Request) : Response + User.t :=
  let token := Js.or (cookies_jwt_token req) (bearer req) in
  if negb (Js.truthy token)
  then inl {| status := 401; body := Error "No token provided" |}
  else
    match verify D token with
    | Decoded decoded => inr decoded
    | Rejected _ => inl {| status := 401; body := Error "Invalid or expired token" |}
    end.

(** The [verifyJWT] of the two routers: [if (!req.user) ... next()]. *)
Definition router_verifyJWT (req_user : option User.t)
  (next : User.t -> Db -> Response * Db) : Db -> Response * Db :=
  match req_user with
  | None => fun db => ({| status := 401; body := Error "Unauthorized" |}, db)
  | Some user => next user
  end.

(** A call of one of the routes mounted under [/albums], with what the
    outside world answers during the call. *)
Inductive Call : Type :=
| CreateAlbum (uuidv4 : string) (now : Z) (name description : Js.Value)
| GetAlbum (albumId : string)
| UpdateAlbum (albumId : string) (description : Js.Value)
| ShareAlbum (albumId : string) (emails : Js.Value)
| DeleteAlbum (albumId : string)
| UploadImage (uuidv4 : string) (now : Z) (albumId : string)
    (part : option Part) (gateway : option UploadResult)
    (tags person isFavorite : Js.Value)
| SetFavorite (albumId imageId : string) (isFavorite : Js.Value)
| AddComment (now : Z) (albumId imageId : string) (comment : Js.Value)
| DeleteImage (destroyed : bool) (albumId imageId : string)
| GetImageUrl (albumId imageId : string).

Definition route (D : Driver) (user : User.t) (c : Call) : Db -> Response * Db :=
  match c with
  | CreateAlbum uuidv4 now name description =>
      createAlbum D user uuidv4 now name description
  | GetAlbum albumId => getAlbum user albumId
  | UpdateAlbum albumId description => updateAlbum D user albumId description
  | ShareAlbum albumId emails => shareAlbum user albumId emails
  | DeleteAlbum albumId => deleteAlbum user albumId
  | UploadImage uuidv4 now albumId part gateway tags person isFavorite =>
      match upload_single D part with
      | inl response => fun db => (response, db)
      | inr file =>
          uploadImage D user uuidv4 now albumId file gateway tags person isFavorite
      end
  | SetFavorite albumId imageId isFavorite =>
      setFavorite D user albumId imageId isFavorite
  | AddComment now albumId imageId comment =>
      addComment user now albumId imageId comment
  | DeleteImage destroyed albumId imageId =>
      deleteImage user destroyed albumId imageId
  | GetImageUrl albumId imageId => getImageUrl user albumId imageId
  end.

(** [app.use('/albums', verifyJWT, router)] *)
Definition serve (D : Driver) (req : Request) (c : Call) : Db -> Response * Db :=
  match verifyJWT D req with
  | inl response => fun db => (response, db)
  | inr decoded => router_verifyJWT (Some decoded) (fun user => route D user c)
  end.

(** The databases the server can be in: started empty, it has served
    some calls. *)
Inductive reachable (D : Driver) : Db -> Prop :=
| reachable_start : reachable D emptyDb
| reachable_serve (db : Db) (req : Request) (c : Call) :
    reachable D db -> reachable D (snd (serve D req c db)).

(** The database after a sequence of calls. *)
Definition serveAll (D : Driver) (calls : list (Request * Call)) (db : Db) : Db :=
  fold_left (fun db rc => snd (serve D (fst rc) (snd rc) db)) calls db.

(** ** A driver and data for the examples

    [strictDriver] accepts three fixed tokens, decodes arrays of strings
    written without escapes, and casts only values that already have the
    type of the path. *)

Definition alice : User.t :=
  {| User.email := "alice@x.com"; User.userId := "u-alice";
     User.name := "Alice"; User.picture := "" |}.

Definition bob : User.t :=
  {| User.email := "bob@x.com"; User.userId := "u-bob";
     User.name := "Bob"; User.picture := "" |}.

Definition carol : User.t :=
  {| User.email := "carol@x.com"; User.userId := "u-carol";
     User.name := "Carol"; User.picture := "" |}.

Definition strict_verify (token : string) : JwtResult :=
  if token =? "alice.jwt" then Decoded alice
  else if token =? "bob.jwt" then Decoded bob
  else if token =? "carol.jwt" then Decoded carol
  else if token =? "old.jwt" then Rejected TokenExpiredError
  else Rejected JsonWebTokenError.

Definition quote : ascii := ascii_of_nat 34.

Inductive Scan : Type :=
| AtOpen
| AtFirst
| AtItem
| InItem (text : string)
| AfterItem
| AtEnd.

Fixpoint scanArray (st : Scan) (acc : list string) (s : string)
  : option (list string) :=
  match s with
  | EmptyString => match st with AtEnd => Some acc | _ => None end
  | String c r =>
      match st with
      | AtOpen => if Ascii.eqb c "[" then scanArray AtFirst acc r else None
      | AtFirst =>
          if Ascii.eqb c "]" then scanArray AtEnd acc r
          else if Ascii.eqb c quote then scanArray (InItem "") acc r
          else None
      | AtItem => if Ascii.eqb c quote then scanArray (InItem "") acc r else None
      | InItem text =>
          if Ascii.eqb c quote then scanArray AfterItem (acc ++ [text]) r
          else if Ascii.eqb c "\" then None
          else scanArray (InItem (text ++ String c "")) acc r
      | AfterItem =>
          if Ascii.eqb c "]" then scanArray AtEnd acc r
          else if Ascii.eqb c "," then scanArray AtItem acc r
          else None
      | AtEnd => None
      end
  end.

Definition strict_parse (s : string) : option Js.Value :=
  if s =? "null" then Some Js.Null
  else option_map Js.Arr (scanArray AtOpen [] s).

Definition strict_castString (v : Js.Value) : option string :=
  match v with Js.Str s => Some s | _ => None end.

Definition strict_castBoolean (v : Js.Value) : option (option bool) :=
  match v with
  | Js.Bool b => Some (Some b)
  | Js.Null => Some None
  | _ => None
  end.

Definition strict_castStringArray (v : Js.Value)
  : option (option (list string)) :=
  match v with
  | Js.Arr l => Some (Some l)
  | Js.Null => Some None
  | _ => None
  end.

Definition strictDriver : Driver :=
  {| jwt_verify := strict_verify;
     JSON_parse := strict_parse;
     castString := strict_castString;
     castBoolean := strict_castBoolean;
     castStringArray := strict_castStringArray;
     fileSizeOver := fun limit size => (limit <? size)%Z;
     JSON_parse_empty := eq_refl;
     castString_Str := fun s => eq_refl;
     castBoolean_Bool := fun b => eq_refl;
     castBoolean_Null := eq_refl;
     castStringArray_Arr := fun l => eq_refl;
     castStringArray_Null := eq_refl;
     fileSizeOver_above := fun limit size H => proj2 (Z.ltb_lt limit size) H;
     fileSizeOver_below :=
       fun limit size H => proj2 (Z.ltb_ge limit size) (Z.lt_le_incl size limit H) |}.

Definition withCookie (token : string) : Request :=
  {| cookies_jwt_token := Js.Str token; headers_authorization := None |}.

Definition withBearer (header : string) : Request :=
  {| cookies_jwt_token := Js.Undefined; headers_authorization := Some header |}.

Definition anonymous : Request :=
  {| cookies_jwt_token := Js.Undefined; headers_authorization := None |}.

(** Alice's album "Trip", shared with Bob. *)
Definition trip : Album.t :=
  {| Album.albumId := "a1"; Album.name := "Trip"; Album.description := "Goa";
     Album.ownerId := "u-alice"; Album.ownerEmail := "alice@x.com";
     Album.sharedWith := ["bob@x.com"]; Album.createdAt := 10%Z |}.

Definition sunset : Image.t :=
  {| Image.imageId := "i1"; Image.albumId := "a1"; Image.name := "sunset.png";
     Image.filename := "sunset.png"; Image.cloudinaryUrl := "https://cdn/i1";
     Image.cloudinaryPublicId := "kaviospix/a1/i1"; Image.tags := Some ["sunset"];
     Image.person := ""; Image.isFavorite := Some false;
     Image.comments :=
       [{| Comment.userId := "u-alice"; Comment.userEmail := "alice@x.com";
           Comment.comment := "first"; Comment.createdAt := 21%Z |}];
     Image.size := 2048%Z; Image.uploadedAt := 20%Z;
     Image.uploadedBy := "u-bob" |}.

Definition beach : Image.t :=
  {| Image.imageId := "i2"; Image.albumId := "a1"; Image.name := "beach.png";
     Image.filename := "beach.png"; Image.cloudinaryUrl := "https://cdn/i2";
     Image.cloudinaryPublicId := "kaviospix/a1/i2"; Image.tags := Some [];
     Image.person := ""; Image.isFavorite := Some true; Image.comments := [];
     Image.size := 4096%Z; Image.uploadedAt := 30%Z;
     Image.uploadedBy := "u-alice" |}.

Definition tripDb : Db := {| albums := [trip]; images := [sunset; beach] |}.

(** The text ["sunset","beach"] of a tags field. *)
Definition sunsetBeachJson : string :=
  "[" ++ String quote "sunset" ++ String quote "," ++ String quote "beach"
  ++ String quote "]".

Definition photo : File :=
  {| originalname := "hill.png"; mimetype := "image/png" |}.

Definition stored : UploadResult :=
  {| secure_url := "https://cdn/i3"; public_id := "kaviospix/a1/i3";
     bytes := 1024%Z |}.

Definition sunsetFile : File :=
  {| originalname := "sunset.png"; mimetype := "image/png" |}.

Definition beachFile : File :=
  {| originalname := "beach.png"; mimetype := "image/png" |}.

(** The calls that build [tripDb] from the empty database. *)
Definition tripCalls : list (Request * Call) :=
  [ (withCookie "alice.jwt",
     CreateAlbum "a1" 10 (Js.Str "Trip") (Js.Str "Goa"));
    (withBearer "Bearer alice.jwt",
     ShareAlbum "a1" (Js.Arr ["bob@x.com"; "alice@x.com"; "nobody"; "bob@x.com"]));
    (withCookie "bob.jwt",
     UploadImage "i1" 20 "a1"
       (Some {| part_file := sunsetFile; part_bytes := 2048 |})
       (Some {| secure_url := "https://cdn/i1"; public_id := "kaviospix/a1/i1";
                bytes := 2048 |})
       (Js.Arr ["sunset"]) Js.Undefined Js.Undefined);
    (withCookie "alice.jwt",
     AddComment 21 "a1" "i1" (Js.Str " first "));
    (withCookie "alice.jwt",
     UploadImage "i2" 30 "a1"
       (Some {| part_file := beachFile; part_bytes := 4096 |})
       (Some {| secure_url := "https://cdn/i2"; public_id := "kaviospix/a1/i2";
                bytes := 4096 |})
       (Js.Str "[]") (Js.Str "") (Js.Str "true")) ].

(** The sample database after Bob has sent [{ isFavorite: null }] for the
    second image. *)
Definition nullFlagDb : Db :=
  serveAll strictDriver
    (tripCalls ++ [(withCookie "bob.jwt", SetFavorite "a1" "i2" Js.Null)])
    emptyDb.

(** ** Listing routes *)

(** [.sort({ key: -1 })]: descending by [key].  Documents with equal
    keys come in an order the database chooses; the model keeps their
    order in the collection. *)
Fixpoint insertDesc {A : Type} (key : A -> Z) (x : A) (l : list A) : list A :=
  match l with
  | [] => [x]
  | y :: r =>
      if (key y <=? key x)%Z then x :: y :: r else y :: insertDesc key x r
  end.

Definition sortDesc {A : Type} (key : A -> Z) (l : list A) : list A :=
  fold_right (insertDesc key) [] l.

(** No document comes before one with a greater key. *)
Definition newestFirst {A : Type} (key : A -> Z) (l : list A) : Prop :=
  StronglySorted (fun a b => (key b <= key a)%Z) l.

(** [try { ...; res.json(payload) } catch (error) { res.status(500)... }]
    for the routes that answer with a list: [inr] is the payload of the
    200, [inl] any other response. *)
Definition try_catch_json {A : Type} (m : Handler A) (msg : string)
  : Db -> (Response + A) * Db :=
  fun db =>
    match m db with
    | Next a db' => (inr a, db')
    | Sent r db' => (inl r, db')
    | Thrown e db' => (inl {| status := 500; body := Error msg |}, db')
    end.

(** The query [{ $or: [{ ownerId: userId }, { sharedWith: userEmail }] }]:
    on the array path [sharedWith] the second clause holds when some
    element equals [userEmail]. *)
Definition owned_or_shared (userId userEmail : string) (a : Album.t) : bool :=
  (Album.ownerId a =? userId) || Js.includes (Album.sharedWith a) userEmail.

(** [Album.find(query).sort({ createdAt: -1 })] *)
Definition Album_find_sorted (query : Album.t -> bool) : Handler (list Album.t) :=
  fun db => Next (sortDesc Album.createdAt (filter query (albums db))) db.

(** GET / of routes/album.js.  The response maps every album to its
    seven fields, which are all the fields of the document. *)
Definition listAlbums (user : User.t) : Db -> (Response + list Album.t) * Db :=
  try_catch_json
    (albums <- Album_find_sorted
                 (owned_or_shared (User.userId user) (User.email user)) ;;
     ret albums)
    "Failed to fetch albums".

(** The fields of an image that the two listings show. *)
Module ImageItem.
Record t : Type := {
  imageId : string;
  name : string;
  cloudinaryUrl : string;
  tags : option (list string);
  person : string;
  isFavorite : option bool;
  comments : list Comment.t;
  size : Z;
  uploadedAt : Z
}.

Definition project (i : Image.t) : t :=
  {| imageId := Image.imageId i; name := Image.name i;
     cloudinaryUrl := Image.cloudinaryUrl i; tags := Image.tags i;
     person := Image.person i; isFavorite := Image.isFavorite i;
     comments := Image.comments i; size := Image.size i;
     uploadedAt := Image.uploadedAt i |}.
End ImageItem.

(** [tags.split(',').map(tag => tag.trim())] under [if (tags)]: only a
    string has [split]. *)
Definition tagArray (tags : Js.Value) : Handler (option (list string)) :=
  if Js.truthy tags then
    match tags with
    | Js.Str s => ret (Some (map Js.trim (Js.split "," s)))
    | _ => throw TypeError
    end
  else ret None.

(** The query [{ albumId }], with [tags: { $in: tagArray }] when a
    filter is given: some tag of the image is one of [tagArray]. *)
Definition in_album_tagged (albumId : string) (wanted : option (list string))
  (i : Image.t) : bool :=
  image_in albumId i
  && match wanted with
     | None => true
     | Some tagArray => existsb (Js.includes tagArray) (Image.tagList i)
     end.

(** The query [{ albumId, isFavorite: true }]. *)
Definition favorite_in_album (albumId : string) (i : Image.t) : bool :=
  image_in albumId i
  && match Image.isFavorite i with
     | Some true => true
     | _ => false
     end.

(** [Image.find(query).sort({ uploadedAt: -1 })] *)
Definition Image_find_sorted (query : Image.t -> bool) : Handler (list Image.t) :=
  fun db => Next (sortDesc Image.uploadedAt (filter query (images db))) db.

(** GET /:albumId/images?tags=... *)
Definition listImages (user : User.t) (albumId : string) (tags : Js.Value)
  : Db -> (Response + list ImageItem.t) * Db :=
  try_catch_json
    (found <- Album_findOne albumId ;;
     album <- orSend found 404 "Album not found" ;;
     when (negb (hasAccess user album))
          (send 403 (Error "You do not have access to this album")) ;;
     wanted <- tagArray tags ;;
     images <- Image_find_sorted (in_album_tagged albumId wanted) ;;
     ret (map ImageItem.project images))
    "Failed to fetch images".

(** GET /:albumId/images/favorites *)
Definition listFavorites (user : User.t) (albumId : string)
  : Db -> (Response + list ImageItem.t) * Db :=
  try_catch_json
    (found <- Album_findOne albumId ;;
     album <- orSend found 404 "Album not found" ;;
     when (negb (hasAccess user album))
          (send 403 (Error "You do not have access to this album")) ;;
     images <- Image_find_sorted (favorite_in_album albumId) ;;
     ret (map ImageItem.project images))
    "Failed to fetch favorite images".

(** What a regular expression matches. *)
Inductive matches : Js.RegExp -> string -> Prop :=
| matches_empty : matches Js.Empty ""
| matches_class (p : ascii -> bool) (c : ascii) :
    p c = true -> matches (Js.Class p) (String c "")
| matches_seq (r1 r2 : Js.RegExp) (s1 s2 : string) :
    matches r1 s1 -> matches r2 s2 -> matches (Js.Seq r1 r2) (s1 ++ s2)
| matches_alt_l (r1 r2 : Js.RegExp) (s : string) :
    matches r1 s -> matches (Js.Alt r1 r2) s
| matches_alt_r (r1 r2 : Js.RegExp) (s : string) :
    matches r2 s -> matches (Js.Alt r1 r2) s
| matches_star_nil (r : Js.RegExp) : matches (Js.Star r) ""
| matches_star_cons (r : Js.RegExp) (s1 s2 : string) :
    matches r s1 -> matches (Js.Star r) s2 -> matches (Js.Star r) (s1 ++ s2).

(** Every character of the string passes the test. *)
Fixpoint allChars (p : ascii -> bool) (s : string) : bool :=
  match s with
  | EmptyString => true
  | String c r => p c && allChars p r
  end.

(** A non-empty run of characters that are neither white space nor "@". *)
Definition plainPart (s : string) : Prop :=
  s <> "" /\ allChars notSpaceAt s = true.

(** The ways a call can change the image collection, with what it
    stores. *)
Inductive images_evolve (l : list Image.t) : list Image.t -> Prop :=
| evolve_kept : images_evolve l l
| evolve_added (i : Image.t) : images_evolve l (l ++ [i])
| evolve_flagged (imageId albumId : string) (i : Image.t) (b : option bool) :
    find (image_at imageId albumId) l = Some i ->
    images_evolve l
      (replaceFirst (image_at imageId albumId) (Image.set_isFavorite b i) l)
| evolve_commented (imageId albumId : string) (i : Image.t) (c : Comment.t) :
    find (image_at imageId albumId) l = Some i ->
    images_evolve l
      (replaceFirst (image_at imageId albumId)
         (Image.set_comments (Image.comments i ++ [c]) i) l)
| evolve_removed (imageId : string) :
    images_evolve l (removeFirst (image_is imageId) l)
| evolve_purged (albumId : string) :
    images_evolve l (filter (fun i => negb (image_in albumId i)) l).

(** A later version of an image: only the favourite flag may differ,
    and comments may have been added at the end. *)
Definition image_later (i i' : Image.t) : Prop :=
  Image.imageId i' = Image.imageId i /\
  Image.albumId i' = Image.albumId i /\
  Image.name i' = Image.name i /\
  Image.filename i' = Image.filename i /\
  Image.cloudinaryUrl i' = Image.cloudinaryUrl i /\
  Image.cloudinaryPublicId i' = Image.cloudinaryPublicId i /\
  Image.tags i' = Image.tags i /\
  Image.person i' = Image.person i /\
  Image.size i' = Image.size i /\
  Image.uploadedAt i' = Image.uploadedAt i /\
  Image.uploadedBy i' = Image.uploadedBy i /\
  exists added, Image.comments i' = (Image.comments i ++ added)%list.

(** No space in the string. *)
Definition noSpace (s : string) : bool :=
  allChars (fun c => negb (Ascii.eqb c " ")) s.

(** A status of the 4xx family. *)
Definition clientError (r : Response) : bool :=
  (400 <=? status r)%nat && (status r <? 500)%nat.

(** ** Predicates of the specification *)

(** What the sharing list of an album must satisfy. *)
Definition sharing_ok (a : Album.t) : Prop :=
  ~ In (Album.ownerEmail a) (Album.sharedWith a) /\ NoDup (Album.sharedWith a).

(** The ways a call can change the album collection. *)
Inductive albums_change (l : list Album.t) : list Album.t -> Prop :=
| albums_kept : albums_change l l
| albums_added (a : Album.t) :
    Album.sharedWith a = [] ->
    existsb (album_is (Album.albumId a)) l = false ->
    albums_change l (l ++ [a])
| albums_described (a : Album.t) (d : string) :
    In a l ->
    albums_change l
      (replaceFirst (album_is (Album.albumId a)) (Album.set_description d a) l)
| albums_shared (a : Album.t) (valid : list string) :
    In a l ->
    albums_change l
      (replaceFirst (album_is (Album.albumId a))
         (Album.set_sharedWith
            (fold_left (pushShared (Album.ownerEmail a)) valid (Album.sharedWith a)) a)
         l)
| albums_removed (albumId : string) :
    albums_change l (removeFirst (album_is albumId) l).

(** The two responses of the credential check. *)
Definition noToken : Response :=
  {| status := 401; body := Error "No token provided" |}.

Definition badToken : Response :=
  {| status := 401; body := Error "Invalid or expired token" |}.

(** Two versions of an album that agree outside [description]. *)
Definition same_but_description (a a' : Album.t) : Prop :=
  Album.albumId a' = Album.albumId a /\
  Album.name a' = Album.name a /\
  Album.ownerId a' = Album.ownerId a /\
  Album.ownerEmail a' = Album.ownerEmail a /\
  Album.sharedWith a' = Album.sharedWith a /\
  Album.createdAt a' = Album.createdAt a.

(** The ways a call can change the image collection. *)
Inductive images_change (l : list Image.t) : list Image.t -> Prop :=
| images_kept : images_change l l
| images_added (i : Image.t) :
    existsb (image_is (Image.imageId i)) l = false ->
    images_change l (l ++ [i])
| images_saved (imageId albumId : string) (i : Image.t) :
    Image.imageId i = imageId ->
    images_change l (replaceFirst (image_at imageId albumId) i l)
| images_removed (imageId : string) :
    images_change l (removeFirst (image_is imageId) l)
| images_purged (albumId : string) :
    images_change l (filter (fun i => negb (image_in albumId i)) l).

(** * Properties *)

Open Scope list_scope.

(** ** Lists and collections *)

Lemma includes_In (l : list string) (x : string) :
  Js.includes l x = true <-> In x l.
Proof.
  unfold Js.includes. rewrite existsb_exists. split.
  - intros [y [Hy Heq]]. apply String.eqb_eq in Heq. now subst.
  - intros H. exists x. split; [assumption | apply String.eqb_refl].
Qed.

Lemma includes_not_In (l : list string) (x : string) :
  Js.includes l x = false <-> ~ In x l.
Proof.
  rewrite <- includes_In. destruct (Js.includes l x); split; congruence.
Qed.

Section FirstMatch.
Context {A : Type}.
Variable p : A -> bool.

(** The document [find] returns splits the collection: nothing before
    it matches. *)
Lemma find_split (l : list A) (x : A) :
  find p l = Some x ->
  exists before after,
    l = before ++ x :: after /\ p x = true /\
    forall z, In z before -> p z = false.
Proof.
  induction l as [|a l IH]; simpl; [discriminate|].
  destruct (p a) eqn:Ha.
  - intros [= <-]. exists [], l. repeat split; auto. intros z [].
  - intros H. destruct (IH H) as (b & c & -> & Hx & Hb).
    exists (a :: b), c. repeat split; auto.
    intros z [<- | Hz]; auto.
Qed.

Lemma find_first (before after : list A) (x : A) :
  (forall z, In z before -> p z = false) -> p x = true ->
  find p (before ++ x :: after) = Some x.
Proof.
  intros Hb Hx. induction before as [|a b IH]; simpl.
  - now rewrite Hx.
  - rewrite (Hb a (or_introl eq_refl)). apply IH.
    intros z Hz. apply Hb. now right.
Qed.

Lemma replaceFirst_first (before after : list A) (x y : A) :
  (forall z, In z before -> p z = false) -> p x = true ->
  replaceFirst p y (before ++ x :: after) = before ++ y :: after.
Proof.
  intros Hb Hx. induction before as [|a b IH]; simpl.
  - now rewrite Hx.
  - rewrite (Hb a (or_introl eq_refl)). f_equal. apply IH.
    intros z Hz. apply Hb. now right.
Qed.

Lemma removeFirst_first (before after : list A) (x : A) :
  (forall z, In z before -> p z = false) -> p x = true ->
  removeFirst p (before ++ x :: after) = before ++ after.
Proof.
  intros Hb Hx. induction before as [|a b IH]; simpl.
  - now rewrite Hx.
  - rewrite (Hb a (or_introl eq_refl)). f_equal. apply IH.
    intros z Hz. apply Hb. now right.
Qed.

Lemma replaceFirst_found (l : list A) (x : A) :
  find p l = Some x -> replaceFirst p x l = l.
Proof.
  intros H. destruct (find_split l x H) as (b & c & -> & Hx & Hb).
  now apply replaceFirst_first.
Qed.

Lemma find_none_iff (l : list A) :
  find p l = None <-> forall z, In z l -> p z = false.
Proof.
  split.
  - intros H z Hz. exact (find_none p l H z Hz).
  - induction l as [|a l IH]; simpl; intros H; [reflexivity|].
    rewrite (H a (or_introl eq_refl)). apply IH. intros z Hz. apply H. now right.
Qed.
End FirstMatch.

(** ** The primitives on samples *)

Example trim_strips_both_ends :
  Js.trim "  nice shot  " = "nice shot" /\ Js.trim "   " = "".
Proof. split; reflexivity. Qed.

Example split_on_space :
  Js.split " " "Bearer abc.def" = ["Bearer"; "abc.def"] /\
  Js.split " " "Bearer" = ["Bearer"] /\
  Js.split " " "" = [""].
Proof. repeat split. Qed.

Example emailRegex_samples :
  map (Js.test emailRegex)
    ["a@x.com"; "a.b@x.y.z"; "a@x"; "a b@x.com"; "@x.com"; "a@.com"; "a@x.";
     "a@@x.com"; ""]
  = [true; true; false; false; false; false; false; false; false].
Proof. reflexivity. Qed.

Example bearer_token :
  bearer (withBearer "Bearer alice.jwt") = Js.Str "alice.jwt" /\
  bearer (withBearer "Bearer") = Js.Undefined /\
  bearer anonymous = Js.Undefined.
Proof. repeat split. Qed.

(** The sample database is what the sample calls build. *)
Example tripDb_built : serveAll strictDriver tripCalls emptyDb = tripDb.
Proof. reflexivity. Qed.

(** ** The access predicates *)

Lemma hasAccess_iff (user : User.t) (album : Album.t) :
  hasAccess user album = true <->
  User.userId user = Album.ownerId album \/
  In (User.email user) (Album.sharedWith album).
Proof.
  unfold hasAccess. rewrite orb_true_iff, String.eqb_eq, includes_In.
  intuition congruence.
Qed.

Lemma canDelete_iff (user : User.t) (album : Album.t) (image : Image.t) :
  canDelete user album image = true <->
  User.userId user = Album.ownerId album \/
  User.userId user = Image.uploadedBy image.
Proof.
  unfold canDelete. rewrite orb_true_iff, !String.eqb_eq.
  intuition congruence.
Qed.

(** Unfolds the plumbing of a handler, leaving its lookups and tests. *)
Ltac handler :=
  unfold try_catch, bind, when, orSend, cast, send, ret, throw, failed,
    Album_findOne, Album_save, Album_deleteOne,
    Image_findOne, Image_save, Image_deleteOne, Image_deleteMany; cbn.

(** C2: the read-access test of the album and image handlers holds
    exactly for the owner (by [userId]) and the members of [sharedWith]
    (by email); for anyone else it is false, and the handlers that reach
    the test answer 403 Forbidden, where a missing album answers 404. *)
Theorem read_access_owner_or_shared
  (D : Driver) (user : User.t) (album : Album.t) (albumId : string) (db : Db)
  (Hfound : find (album_is albumId) (albums db) = Some album) :
  (hasAccess user album = true <->
   User.userId user = Album.ownerId album \/
   In (User.email user) (Album.sharedWith album)) /\
  (User.userId user <> Album.ownerId album ->
   ~ In (User.email user) (Album.sharedWith album) ->
   let forbidden :=
     ({| status := 403; body := Error "You do not have access to this album" |}, db) in
   hasAccess user album = false /\
   getAlbum user albumId db = forbidden /\
   (forall uuidv4 now file gateway tags person isFavorite,
       uploadImage D user uuidv4 now albumId (Some file) gateway
         tags person isFavorite db = forbidden) /\
   (forall imageId isFavorite,
       setFavorite D user albumId imageId isFavorite db = forbidden) /\
   (forall now imageId text,
       Js.trim text <> "" ->
       addComment user now albumId imageId (Js.Str text) db = forbidden) /\
   (forall imageId, getImageUrl user albumId imageId db = forbidden)) /\
  (hasAccess user album = true ->
   getAlbum user albumId db = ({| status := 200; body := AlbumDoc album |}, db)) /\
  (forall anyone missing,
      find (album_is missing) (albums db) = None ->
      getAlbum anyone missing db =
      ({| status := 404; body := Error "Album not found" |}, db)).
Proof.
  split; [apply hasAccess_iff|].
  split; [|split].
  - intros Hown Hshared forbidden.
    assert (Hno : hasAccess user album = false).
    { destruct (hasAccess user album) eqn:E; [|reflexivity].
      apply hasAccess_iff in E. tauto. }
    split; [exact Hno|].
    repeat split; intros.
    + unfold getAlbum. handler. rewrite Hfound; cbn. now rewrite Hno.
    + unfold uploadImage. handler. rewrite Hfound; cbn. now rewrite Hno.
    + unfold setFavorite. handler. rewrite Hfound; cbn. now rewrite Hno.
    + unfold addComment, emptyComment, String_trim. handler.
      assert (Ht : text <> "") by (intros ->; now apply H).
      apply String.eqb_neq in Ht. rewrite Ht; cbn.
      apply String.eqb_neq in H. rewrite H; cbn.
      rewrite Hfound; cbn. now rewrite Hno.
    + unfold getImageUrl. handler. rewrite Hfound; cbn. now rewrite Hno.
  - intros Hyes. unfold getAlbum. handler. rewrite Hfound; cbn. now rewrite Hyes.
  - intros anyone missing Hnone. unfold getAlbum. handler. now rewrite Hnone.
Qed.

Lemma read_access_owner_or_shared_witness :
  hasAccess carol trip = false /\
  getAlbum carol "a1" tripDb =
  ({| status := 403; body := Error "You do not have access to this album" |}, tripDb) /\
  (hasAccess bob trip = true <-> "u-bob" = "u-alice" \/ In "bob@x.com" ["bob@x.com"]).
Proof.
  destruct (read_access_owner_or_shared strictDriver carol trip "a1" tripDb eq_refl)
    as (_ & Hno & _).
  destruct Hno as (H1 & H2 & _).
  - discriminate.
  - cbn. intros [H | []]. discriminate.
  - split; [exact H1|]. split; [exact H2|].
    apply (read_access_owner_or_shared strictDriver bob trip "a1" tripDb eq_refl).
Defined.

(** ** Sharing *)

Lemma pushShared_cases (owner : string) (sw : list string) (e : string) :
  (pushShared owner sw e = sw /\ (In e sw \/ e = owner)) \/
  (pushShared owner sw e = sw ++ [e] /\ ~ In e sw /\ e <> owner).
Proof.
  unfold pushShared.
  destruct (Js.includes sw e) eqn:Hin; cbn.
  - left. split; [reflexivity|]. left. now apply includes_In.
  - destruct (e =? owner) eqn:Heq; cbn.
    + left. split; [reflexivity|]. right. now apply String.eqb_eq.
    + right. split; [reflexivity|]. split.
      * now apply includes_not_In.
      * now apply String.eqb_neq.
Qed.

Lemma share_ok (owner : string) (valid sw : list string) :
  ~ In owner sw -> NoDup sw ->
  ~ In owner (fold_left (pushShared owner) valid sw) /\
  NoDup (fold_left (pushShared owner) valid sw).
Proof.
  revert sw. induction valid as [|e valid IH]; intros sw Hown Hnd; cbn.
  - now split.
  - destruct (pushShared_cases owner sw e) as [[-> _] | (-> & Hnew & Hne)].
    + now apply IH.
    + apply IH.
      * rewrite in_app_iff. cbn. intuition congruence.
      * apply NoDup_app; [assumption | repeat constructor; intros [] |].
        intros x Hx [<- | []]. contradiction.
Qed.

Lemma share_members (owner : string) (valid sw : list string) (x : string) :
  In x (fold_left (pushShared owner) valid sw) <->
  In x sw \/ (In x valid /\ x <> owner).
Proof.
  revert sw. induction valid as [|e valid IH]; intros sw; cbn.
  - tauto.
  - rewrite IH.
    destruct (pushShared_cases owner sw e) as [[-> Hold] | (-> & Hnew & Hne)].
    + split; [tauto|]. intros [H | [[<- | H] Hx]]; tauto.
    + rewrite in_app_iff. cbn. split.
      * intros [[H | [<- | []]] | [H Hx]]; tauto.
      * intros [H | [[<- | H] Hx]]; tauto.
Qed.

Lemma share_extends (owner : string) (valid sw : list string) :
  exists added, fold_left (pushShared owner) valid sw = sw ++ added.
Proof.
  revert sw. induction valid as [|e valid IH]; intros sw; cbn.
  - exists []. now rewrite app_nil_r.
  - destruct (pushShared_cases owner sw e) as [[-> _] | (-> & _)].
    + apply IH.
    + destruct (IH (sw ++ [e])) as [added ->].
      exists (e :: added). now rewrite <- app_assoc.
Qed.

Lemma share_noop (owner : string) (valid sw : list string) :
  (forall e, In e valid -> In e sw \/ e = owner) ->
  fold_left (pushShared owner) valid sw = sw.
Proof.
  induction valid as [|e valid IH]; intros H; cbn; [reflexivity|].
  destruct (pushShared_cases owner sw e) as [[-> _] | (_ & Hnew & Hne)].
  - apply IH. intros x Hx. apply H. now right.
  - destruct (H e (or_introl eq_refl)); contradiction.
Qed.

Lemma Forall_replaceFirst {A : Type} (P : A -> Prop) (p : A -> bool) (y : A)
  (l : list A) :
  Forall P l -> P y -> Forall P (replaceFirst p y l).
Proof.
  intros Hl Hy. induction Hl as [|a l Ha Hl IH]; cbn; [constructor|].
  destruct (p a); constructor; auto.
Qed.

Lemma Forall_removeFirst {A : Type} (P : A -> Prop) (p : A -> bool) (l : list A) :
  Forall P l -> Forall P (removeFirst p l).
Proof.
  intros Hl. induction Hl as [|a l Ha Hl IH]; cbn; [constructor|].
  destruct (p a); [assumption | now constructor].
Qed.

Lemma set_sharedWith_same (a : Album.t) :
  Album.set_sharedWith (Album.sharedWith a) a = a.
Proof. now destruct a. Qed.

Lemma set_description_same (a : Album.t) :
  Album.set_description (Album.description a) a = a.
Proof. now destruct a. Qed.

Lemma set_albums_same (db : Db) : set_albums (albums db) db = db.
Proof. now destruct db. Qed.

Lemma set_images_same (db : Db) : set_images (images db) db = db.
Proof. now destruct db. Qed.

(** ** What a call does to the album collection *)

(** Case analysis on an innermost test of the goal. *)
Ltac split_match :=
  match goal with
  | |- context [match ?x with _ => _ end] =>
      lazymatch x with
      | context [match _ with _ => _ end] => fail
      | _ => destruct x eqn:?
      end
  end.

Lemma found_album (albumId : string) (l : list Album.t) (a : Album.t) :
  find (album_is albumId) l = Some a -> In a l /\ Album.albumId a = albumId.
Proof.
  intros H. apply find_some in H. destruct H as [Hin Hp].
  split; [assumption | now apply String.eqb_eq].
Qed.

Lemma route_albums (D : Driver) (user : User.t) (c : Call) (db : Db) :
  albums_change (albums db) (albums (snd (route D user c db))).
Proof.
  destruct c; cbn [route].
  - unfold createAlbum, Album_insert. handler.
    repeat (split_match; cbn); try apply albums_kept.
    apply albums_added; [reflexivity | assumption].
  - unfold getAlbum. handler. repeat (split_match; cbn); apply albums_kept.
  - unfold updateAlbum. handler.
    destruct (find (album_is albumId) (albums db)) as [a|] eqn:Hfound; cbn;
      [|apply albums_kept].
    destruct (found_album _ _ _ Hfound) as [Hin <-].
    repeat (split_match; cbn); try apply albums_kept.
    now apply albums_described.
  - unfold shareAlbum. handler.
    destruct (negb (Js.truthy emails) || negb (Js.Array_isArray emails)
              || (length (items emails) =? 0)%nat); cbn; [apply albums_kept|].
    destruct (find (album_is albumId) (albums db)) as [a|] eqn:Hfound; cbn;
      [|apply albums_kept].
    destruct (found_album _ _ _ Hfound) as [Hin <-].
    repeat (split_match; cbn); try apply albums_kept.
    now apply albums_shared.
  - unfold deleteAlbum. handler.
    repeat (split_match; cbn); try apply albums_kept.
    apply albums_removed.
  - unfold uploadImage, uploadToCloudinary, Image_insert. handler.
    repeat (split_match; cbn); apply albums_kept.
  - unfold setFavorite. handler. repeat (split_match; cbn); apply albums_kept.
  - unfold addComment, emptyComment, String_trim. handler.
    repeat (split_match; cbn); apply albums_kept.
  - unfold deleteImage, logged, cloudinary_destroy. handler.
    repeat (split_match; cbn); apply albums_kept.
  - unfold getImageUrl. handler. repeat (split_match; cbn); apply albums_kept.
Qed.

Lemma serve_albums (D : Driver) (req : Request) (c : Call) (db : Db) :
  albums_change (albums db) (albums (snd (serve D req c db))).
Proof.
  unfold serve. destruct (verifyJWT D req) as [response | decoded]; cbn.
  - apply albums_kept.
  - apply route_albums.
Qed.

Lemma albums_change_sharing_ok (l l' : list Album.t) :
  albums_change l l' -> Forall sharing_ok l -> Forall sharing_ok l'.
Proof.
  intros Hc Hl. destruct Hc as [|a Hs _|a d Hin|a valid Hin|albumId].
  - assumption.
  - apply Forall_app. split; [assumption|].
    constructor; [|constructor]. unfold sharing_ok. rewrite Hs.
    split; [intros [] | constructor].
  - apply Forall_replaceFirst; [assumption|].
    rewrite Forall_forall in Hl. exact (Hl a Hin).
  - apply Forall_replaceFirst; [assumption|].
    rewrite Forall_forall in Hl. destruct (Hl a Hin) as [Hown Hnd].
    unfold sharing_ok; cbn. now apply share_ok.
  - now apply Forall_removeFirst.
Qed.

Lemma reachable_sharing_ok (D : Driver) (db : Db) :
  reachable D db -> Forall sharing_ok (albums db).
Proof.
  induction 1 as [|db req c Hr IH].
  - constructor.
  - exact (albums_change_sharing_ok _ _ (serve_albums D req c db) IH).
Qed.

Lemma shareAlbum_owner (user : User.t) (albumId : string) (emails : list string)
  (album : Album.t) (db : Db) :
  find (album_is albumId) (albums db) = Some album ->
  Album.ownerId album = User.userId user ->
  filter (Js.test emailRegex) emails <> [] ->
  let shared :=
    fold_left (pushShared (Album.ownerEmail album))
      (filter (Js.test emailRegex) emails) (Album.sharedWith album) in
  shareAlbum user albumId (Js.Arr emails) db =
  ({| status := 200; body := AlbumShared "Album shared successfully" shared |},
   set_albums
     (replaceFirst (album_is albumId) (Album.set_sharedWith shared album) (albums db))
     db).
Proof.
  intros Hfound Hown Hvalid shared.
  destruct (found_album _ _ _ Hfound) as [_ Hid].
  assert (Hlen : (length emails =? 0)%nat = false).
  { destruct emails; [now elim Hvalid | reflexivity]. }
  assert (Hvlen : (length (filter (Js.test emailRegex) emails) =? 0)%nat = false).
  { destruct (filter (Js.test emailRegex) emails); [now elim Hvalid | reflexivity]. }
  unfold shareAlbum. handler.
  rewrite Hlen; cbn. rewrite Hfound; cbn.
  rewrite Hown, String.eqb_refl; cbn.
  rewrite Hvlen; cbn. subst shared. now rewrite Hid.
Qed.

(** C1: in every album of a database the server can reach, [sharedWith]
    holds neither the owner's email nor a duplicate.  Creation starts it
    empty; the owner's share call appends to it exactly the valid emails
    that are absent from it and differ from [ownerEmail], and leaves it
    (and the database) as it was when every valid email is present
    already or is the owner's. *)
Theorem sharedWith_excludes_owner_and_duplicates
  (D : Driver) (db : Db) (Hreach : reachable D db) :
  (forall album, In album (albums db) ->
      ~ In (Album.ownerEmail album) (Album.sharedWith album) /\
      NoDup (Album.sharedWith album)) /\
  (forall user uuidv4 now name description,
      status (fst (createAlbum D user uuidv4 now name description db)) = 201 ->
      exists album,
        albums (snd (createAlbum D user uuidv4 now name description db)) =
        albums db ++ [album] /\
        Album.albumId album = uuidv4 /\
        Album.ownerEmail album = User.email user /\
        Album.sharedWith album = []) /\
  (forall user albumId emails album,
      find (album_is albumId) (albums db) = Some album ->
      Album.ownerId album = User.userId user ->
      let valid := filter (Js.test emailRegex) emails in
      valid <> [] ->
      let shared :=
        fold_left (pushShared (Album.ownerEmail album)) valid (Album.sharedWith album) in
      shareAlbum user albumId (Js.Arr emails) db =
      ({| status := 200; body := AlbumShared "Album shared successfully" shared |},
       set_albums
         (replaceFirst (album_is albumId) (Album.set_sharedWith shared album)
            (albums db)) db) /\
      (exists added, shared = Album.sharedWith album ++ added) /\
      (forall e, In e shared <->
                 In e (Album.sharedWith album) \/
                 (In e valid /\ e <> Album.ownerEmail album)) /\
      ~ In (Album.ownerEmail album) shared /\
      NoDup shared /\
      ((forall e, In e valid ->
                  In e (Album.sharedWith album) \/ e = Album.ownerEmail album) ->
       shared = Album.sharedWith album /\
       snd (shareAlbum user albumId (Js.Arr emails) db) = db)).
Proof.
  pose proof (reachable_sharing_ok D db Hreach) as Hok.
  rewrite Forall_forall in Hok.
  split; [exact Hok|]. split.
  - intros user uuidv4 now name description.
    unfold createAlbum, Album_insert. handler.
    repeat (split_match; cbn); try discriminate.
    intros _. eexists. repeat split.
  - intros user albumId emails album Hfound Hown valid Hvalid shared.
    destruct (found_album _ _ _ Hfound) as [Hin _].
    destruct (Hok album Hin) as [Hno Hnd].
    split; [now apply shareAlbum_owner|].
    split; [apply share_extends|].
    split; [intros e; apply share_members|].
    split; [now apply share_ok|].
    split; [now apply share_ok|].
    intros Hold.
    assert (Hsame : shared = Album.sharedWith album) by now apply share_noop.
    split; [exact Hsame|].
    rewrite (shareAlbum_owner user albumId emails album db Hfound Hown Hvalid).
    cbn [snd]. fold valid. fold shared. rewrite Hsame, set_sharedWith_same.
    rewrite (replaceFirst_found _ _ _ Hfound). apply set_albums_same.
Qed.

Lemma reachable_serveAll (D : Driver) (calls : list (Request * Call)) (db : Db) :
  reachable D db -> reachable D (serveAll D calls db).
Proof.
  revert db. induction calls as [|[req c] calls IH]; intros db H; cbn.
  - exact H.
  - apply IH. now apply reachable_serve.
Defined.

Lemma tripDb_reachable : reachable strictDriver tripDb.
Proof.
  exact (reachable_serveAll strictDriver tripCalls emptyDb (reachable_start _)).
Defined.

Lemma sharedWith_excludes_owner_and_duplicates_witness :
  reachable strictDriver tripDb /\
  (~ In "alice@x.com" ["bob@x.com"] /\ NoDup ["bob@x.com"]) /\
  snd (shareAlbum alice "a1" (Js.Arr ["bob@x.com"; "alice@x.com"]) tripDb) = tripDb.
Proof.
  pose proof (sharedWith_excludes_owner_and_duplicates strictDriver tripDb
                tripDb_reachable) as (Hinv & _ & Hshare).
  split; [exact tripDb_reachable|]. split.
  - exact (Hinv trip (or_introl eq_refl)).
  - destruct (Hshare alice "a1" ["bob@x.com"; "alice@x.com"] trip eq_refl eq_refl)
      as (_ & _ & _ & _ & _ & Hnoop).
    + discriminate.
    + apply Hnoop. cbn. intros e [<- | [<- | []]]; auto.
Defined.

(** ** Unique album identifiers and deletion *)

Lemma album_is_iff (albumId : string) (a : Album.t) :
  album_is albumId a = true <-> Album.albumId a = albumId.
Proof. apply String.eqb_eq. Qed.

Lemma existsb_album_is (albumId : string) (l : list Album.t) :
  existsb (album_is albumId) l = false -> ~ In albumId (map Album.albumId l).
Proof.
  intros H Hin. apply in_map_iff in Hin. destruct Hin as (a & Ha & Hin).
  assert (existsb (album_is albumId) l = true); [|congruence].
  apply existsb_exists. exists a. split; [assumption | now apply album_is_iff].
Qed.

Lemma map_replaceFirst {A B : Type} (f : A -> B) (p : A -> bool) (y : A)
  (l : list A) :
  (forall x, In x l -> p x = true -> f x = f y) ->
  map f (replaceFirst p y l) = map f l.
Proof.
  induction l as [|a l IH]; intros H; cbn; [reflexivity|].
  destruct (p a) eqn:Ha; cbn.
  - f_equal. symmetry. apply H; [now left | assumption].
  - f_equal. apply IH. intros x Hx. apply H. now right.
Qed.

Lemma NoDup_map_removeFirst {A B : Type} (f : A -> B) (p : A -> bool) (l : list A) :
  NoDup (map f l) -> NoDup (map f (removeFirst p l)).
Proof.
  induction l as [|a l IH]; cbn; intros H; [assumption|].
  inversion H as [|? ? Hnotin Hnd]; subst.
  destruct (p a); cbn; [assumption|].
  constructor; [|now apply IH].
  intros Hin. apply Hnotin. clear - Hin.
  induction l as [|b l IH]; cbn in *; [assumption|].
  destruct (p b); cbn in *; [now right | tauto].
Qed.

Lemma albums_change_unique (l l' : list Album.t) :
  albums_change l l' -> NoDup (map Album.albumId l) -> NoDup (map Album.albumId l').
Proof.
  intros Hc Hl. destruct Hc as [|a _ Hfresh|a d Hin|a valid Hin|albumId].
  - assumption.
  - rewrite map_app. apply NoDup_app; [assumption | repeat constructor; intros [] |].
    cbn. intros x Hx [<- | []]. now apply (existsb_album_is _ _ Hfresh).
  - rewrite map_replaceFirst; [assumption|].
    intros x _ Hx. now apply album_is_iff in Hx.
  - rewrite map_replaceFirst; [assumption|].
    intros x _ Hx. now apply album_is_iff in Hx.
  - now apply NoDup_map_removeFirst.
Qed.

(** The unique index on [albumId] holds in every database the server
    can reach. *)
Lemma reachable_unique_albumId (D : Driver) (db : Db) :
  reachable D db -> NoDup (map Album.albumId (albums db)).
Proof.
  induction 1 as [|db req c Hr IH].
  - constructor.
  - exact (albums_change_unique _ _ (serve_albums D req c db) IH).
Qed.

Lemma removeFirst_unique (albumId : string) (l : list Album.t) :
  NoDup (map Album.albumId l) ->
  find (album_is albumId) (removeFirst (album_is albumId) l) = None.
Proof.
  induction l as [|a l IH]; cbn; intros H; [reflexivity|].
  inversion H as [|? ? Hnotin Hnd]; subst.
  destruct (album_is albumId a) eqn:Ha; cbn.
  - apply find_none_iff. intros z Hz.
    destruct (album_is albumId z) eqn:Hzid; [|reflexivity].
    exfalso. apply Hnotin. apply album_is_iff in Ha, Hzid.
    rewrite Ha, <- Hzid. now apply in_map.
  - rewrite Ha. now apply IH.
Qed.

(** C3: deleting an album succeeds only for its owner (by [userId]);
    anyone else is answered 403 and nothing changes.  For the owner the
    handler first deletes every image of the album, then the album: no
    image with that [albumId] is left, the images of other albums stay,
    and a later GET of the album answers 404 Not Found. *)
Theorem deleteAlbum_owner_cascade
  (user : User.t) (albumId : string) (album : Album.t) (db : Db)
  (Hunique : NoDup (map Album.albumId (albums db)))
  (Hfound : find (album_is albumId) (albums db) = Some album) :
  let response := fst (deleteAlbum user albumId db) in
  let db' := snd (deleteAlbum user albumId db) in
  (status response = 200 <-> User.userId user = Album.ownerId album) /\
  (User.userId user <> Album.ownerId album ->
   response =
   {| status := 403; body := Error "Only the album owner can delete it" |} /\
   db' = db) /\
  (User.userId user = Album.ownerId album ->
   response =
   {| status := 200;
      body := Message "Album and all associated images deleted successfully" |} /\
   (Image_deleteMany albumId ;; Album_deleteOne albumId) db = Next tt db' /\
   (forall image, In image (images db') <->
                  In image (images db) /\ Image.albumId image <> albumId) /\
   albums db' = removeFirst (album_is albumId) (albums db) /\
   find (album_is albumId) (albums db') = None /\
   forall anyone,
     getAlbum anyone albumId db' =
     ({| status := 404; body := Error "Album not found" |}, db')).
Proof.
  intros response db'. subst response db'.
  unfold deleteAlbum. handler. rewrite Hfound; cbn.
  destruct (Album.ownerId album =? User.userId user) eqn:Hown; cbn.
  - apply String.eqb_eq in Hown. split; [split; congruence|].
    split; [congruence|]. intros _.
    assert (Hgone : find (album_is albumId)
                      (removeFirst (album_is albumId) (albums db)) = None)
      by now apply removeFirst_unique.
    repeat split; try assumption.
    + apply filter_In in H. tauto.
    + apply filter_In in H. destruct H as [_ Hin].
      unfold image_in in Hin. apply negb_true_iff, String.eqb_neq in Hin.
      exact Hin.
    + intros [Hin Hne]. apply filter_In. split; [assumption|].
      unfold image_in. now apply negb_true_iff, String.eqb_neq.
    + intros anyone. unfold getAlbum. handler. now rewrite Hgone.
  - apply String.eqb_neq in Hown. split; [split; [discriminate | congruence]|].
    split; [|congruence]. intros _. split; [reflexivity | now destruct db].
Qed.

Lemma deleteAlbum_owner_cascade_witness :
  NoDup (map Album.albumId (albums tripDb)) /\
  deleteAlbum alice "a1" tripDb =
  ({| status := 200;
      body := Message "Album and all associated images deleted successfully" |},
   emptyDb) /\
  getAlbum bob "a1" emptyDb =
  ({| status := 404; body := Error "Album not found" |}, emptyDb).
Proof.
  assert (Hunique : NoDup (map Album.albumId (albums tripDb))).
  { cbn. constructor; [intros [] | constructor]. }
  split; [exact Hunique|].
  destruct (deleteAlbum_owner_cascade alice "a1" trip tripDb Hunique eq_refl)
    as (_ & _ & Hdel).
  destruct (Hdel eq_refl) as (_ & _ & _ & _ & _ & Hget).
  split; [reflexivity | exact (Hget bob)].
Defined.

(** ** Images: deletion, favourites, comments *)

Lemma found_image (imageId albumId : string) (l : list Image.t) (i : Image.t) :
  find (image_at imageId albumId) l = Some i ->
  In i l /\ Image.imageId i = imageId /\ Image.albumId i = albumId.
Proof.
  intros H. apply find_some in H. destruct H as [Hin Hp].
  apply andb_true_iff in Hp. destruct Hp as [H1 H2].
  apply String.eqb_eq in H1, H2. auto.
Qed.

(** Under the unique index on [imageId], [Image.deleteOne({ imageId })]
    removes the image that [Image.findOne({ imageId, albumId })] found. *)
Lemma removeFirst_found_image (imageId albumId : string) (l : list Image.t)
  (image : Image.t) :
  NoDup (map Image.imageId l) ->
  find (image_at imageId albumId) l = Some image ->
  exists before after,
    l = before ++ image :: after /\
    removeFirst (image_is imageId) l = before ++ after /\
    find (image_at imageId albumId) (before ++ after) = None /\
    ~ In image (before ++ after).
Proof.
  intros Hunique Hfound.
  destruct (found_image _ _ _ _ Hfound) as (_ & Hid & _).
  destruct (find_split _ _ _ Hfound) as (before & after & Hsplit & Hp & _).
  assert (Hothers : forall z, In z (before ++ after) -> image_is imageId z = false).
  { intros z Hz. destruct (image_is imageId z) eqn:Hzid; [|reflexivity].
    exfalso. apply String.eqb_eq in Hzid.
    rewrite Hsplit, map_app in Hunique. cbn in Hunique.
    apply NoDup_remove_2 in Hunique. apply Hunique.
    rewrite <- map_app, Hid, <- Hzid. now apply in_map. }
  exists before, after. split; [exact Hsplit|]. split; [|split].
  - rewrite Hsplit. apply removeFirst_first; [|now apply String.eqb_eq].
    intros z Hz. apply Hothers. apply in_or_app. now left.
  - apply find_none_iff. intros z Hz. unfold image_at. now rewrite (Hothers z Hz).
  - intros Hin. apply Hothers in Hin. unfold image_is in Hin.
    rewrite Hid, String.eqb_refl in Hin. discriminate.
Qed.

(** C4: with the album and the image found, deleting the image succeeds
    exactly for the owner of the album and for the uploader of the image
    (both by [userId]), whatever the media host answers; anyone else is
    answered 403 Forbidden and the database, the image included, is as
    before.  A deletion that succeeds removes, under the unique index on
    [imageId], the image that was found and no other: the image is no
    longer in the collection nor found under its identifiers. *)
Theorem deleteImage_owner_or_uploader
  (user : User.t) (destroyed : bool) (albumId imageId : string)
  (album : Album.t) (image : Image.t) (db : Db)
  (Hunique : NoDup (map Image.imageId (images db)))
  (Halbum : find (album_is albumId) (albums db) = Some album)
  (Himage : find (image_at imageId albumId) (images db)
            = Some image) :
  let response := fst (deleteImage user destroyed albumId imageId db) in
  let db' := snd (deleteImage user destroyed albumId imageId db) in
  (status response = 200 <->
   User.userId user = Album.ownerId album \/
   User.userId user = Image.uploadedBy image) /\
  (User.userId user <> Album.ownerId album ->
   User.userId user <> Image.uploadedBy image ->
   response =
   {| status := 403;
      body := Error "You do not have permission to delete this image" |} /\
   db' = db /\
   find (image_at imageId albumId) (images db')
   = Some image) /\
  (User.userId user = Album.ownerId album \/
   User.userId user = Image.uploadedBy image ->
   response = {| status := 200; body := Message "Image deleted successfully" |} /\
   albums db' = albums db /\
   images db' = removeFirst (image_is imageId) (images db) /\
   (exists before after,
       images db = before ++ image :: after /\ images db' = before ++ after) /\
   find (image_at imageId albumId) (images db') = None /\
   ~ In image (images db')).
Proof.
  intros response db'. subst response db'.
  destruct (removeFirst_found_image imageId albumId (images db) image
              Hunique Himage) as (before & after & Hsplit & Hrem & Hgone & Hout).
  unfold deleteImage, logged, cloudinary_destroy. handler.
  rewrite Halbum; cbn. rewrite Himage; cbn.
  pose proof (canDelete_iff user album image) as Hcan.
  destruct (canDelete user album image); cbn.
  - assert (Hyes : User.userId user = Album.ownerId album \/
                   User.userId user = Image.uploadedBy image) by now apply Hcan.
    destruct destroyed; cbn; (split; [split; auto|]); (split; [tauto|]);
      intros _; rewrite Hrem; repeat (split; [reflexivity|]);
      (split; [now exists before, after|]); split; assumption.
  - assert (Hno : ~ (User.userId user = Album.ownerId album \/
                     User.userId user = Image.uploadedBy image)).
    { intros H. apply Hcan in H. discriminate. }
    split; [split; [discriminate | tauto]|].
    split; [|tauto]. intros _ _. auto.
Qed.

Lemma deleteImage_owner_or_uploader_witness :
  NoDup (map Image.imageId (images tripDb)) /\
  find (album_is "a1") (albums tripDb) = Some trip /\
  find (image_at "i1" "a1") (images tripDb) = Some sunset /\
  deleteImage carol true "a1" "i1" tripDb =
  ({| status := 403;
      body := Error "You do not have permission to delete this image" |}, tripDb) /\
  status (fst (deleteImage bob false "a1" "i1" tripDb)) = 200 /\
  find (image_at "i1" "a1") (images (snd (deleteImage bob false "a1" "i1" tripDb)))
  = None.
Proof.
  assert (Hunique : NoDup (map Image.imageId (images tripDb))).
  { cbn. repeat constructor; cbn; [intros [H | []]; discriminate | intros []]. }
  split; [exact Hunique|].
  split; [reflexivity|]. split; [reflexivity|]. split; [|split].
  - destruct (deleteImage_owner_or_uploader carol true "a1" "i1" trip sunset tripDb
                Hunique eq_refl eq_refl) as (_ & Hno & _).
    destruct Hno as (Hr & Hdb & _); [discriminate | discriminate |].
    rewrite (surjective_pairing (deleteImage carol true "a1" "i1" tripDb)).
    now rewrite Hr, Hdb.
  - apply (deleteImage_owner_or_uploader bob false "a1" "i1" trip sunset tripDb
             Hunique eq_refl eq_refl).
    now right.
  - destruct (deleteImage_owner_or_uploader bob false "a1" "i1" trip sunset tripDb
                Hunique eq_refl eq_refl) as (_ & _ & Hyes).
    destruct Hyes as (_ & _ & _ & _ & Hgone & _); [now right | exact Hgone].
Defined.

Lemma setFavorite_found (D : Driver) (user : User.t) (albumId imageId : string)
  (album : Album.t) (image : Image.t) (db : Db) (v : Js.Value)
  (flag : option bool) :
  find (album_is albumId) (albums db) = Some album ->
  hasAccess user album = true ->
  find (image_at imageId albumId) (images db) = Some image ->
  (if Js.defined v then castBoolean D v
   else Some (Some (notFlag (Image.isFavorite image)))) = Some flag ->
  setFavorite D user albumId imageId v db =
  ({| status := 200; body := FavoriteUpdated "Image favorite status updated" flag |},
   set_images
     (replaceFirst (image_at imageId albumId)
        (Image.set_isFavorite flag image) (images db)) db).
Proof.
  intros Halbum Haccess Himage Hcast.
  destruct (found_image _ _ _ _ Himage) as (_ & Hid & Hin).
  unfold setFavorite. handler.
  rewrite Halbum; cbn. rewrite Haccess; cbn. rewrite Himage; cbn.
  rewrite Hcast; cbn. now rewrite Hid, Hin.
Qed.

Lemma setFavorite_refused (D : Driver) (user : User.t) (albumId imageId : string)
  (album : Album.t) (image : Image.t) (db : Db) (v : Js.Value) :
  find (album_is albumId) (albums db) = Some album ->
  hasAccess user album = true ->
  find (image_at imageId albumId) (images db) = Some image ->
  Js.defined v = true -> castBoolean D v = None ->
  setFavorite D user albumId imageId v db =
  ({| status := 500; body := Error "Failed to update favorite status" |}, db).
Proof.
  intros Halbum Haccess Himage Hdef Hcast.
  unfold setFavorite. handler.
  rewrite Halbum; cbn. rewrite Haccess; cbn. rewrite Himage; cbn.
  now rewrite Hdef, Hcast.
Qed.

(** C5 as stated fails: an explicit [null] is a provided value and is
    stored; from that flag two calls without a value end at [false]. *)
Lemma toggle_twice_from_null_differs :
  reachable strictDriver nullFlagDb /\
  option_map Image.isFavorite (find (image_at "i2" "a1") (images nullFlagDb))
  = Some None /\
  option_map Image.isFavorite
    (find (image_at "i2" "a1")
       (images (snd (setFavorite strictDriver bob "a1" "i2" Js.Undefined
                       (snd (setFavorite strictDriver bob "a1" "i2" Js.Undefined
                               nullFlagDb))))))
  = Some (Some false) /\
  snd (setFavorite strictDriver bob "a1" "i2" Js.Undefined
         (snd (setFavorite strictDriver bob "a1" "i2" Js.Undefined nullFlagDb)))
  <> nullFlagDb.
Proof.
  assert (Hnull : option_map Image.isFavorite
                    (find (image_at "i2" "a1") (images nullFlagDb)) = Some None)
    by (vm_compute; reflexivity).
  assert (Hfalse : option_map Image.isFavorite
                     (find (image_at "i2" "a1")
                        (images (snd (setFavorite strictDriver bob "a1" "i2"
                                        Js.Undefined
                                        (snd (setFavorite strictDriver bob "a1" "i2"
                                                Js.Undefined nullFlagDb))))))
                   = Some (Some false))
    by (vm_compute; reflexivity).
  split.
  - exact (reachable_serveAll strictDriver
             (tripCalls ++ [(withCookie "bob.jwt", SetFavorite "a1" "i2" Js.Null)])
             emptyDb (reachable_start _)).
  - split; [exact Hnull|]. split; [exact Hfalse|].
    intros Heq. rewrite Heq, Hnull in Hfalse. clear Heq. discriminate Hfalse.
Qed.

(** C5, amended: with the album found, access granted and the image
    found, a favourite call that carries a boolean stores that boolean
    and one that carries [null] stores [null]; any other value is stored
    as the schema casts it, or refused with 500 and nothing written.  A
    call that carries no value stores the negation of the stored flag,
    [null] counting as false.  Two calls without a value leave the
    database as it was when the flag is a boolean; from [null] they end
    at [false].  What a call stores is read back from the database: the
    image found afterwards differs from the old one in [isFavorite]
    alone, and it keeps its place in the collection. *)
Theorem setFavorite_sets_or_toggles
  (D : Driver) (user : User.t) (albumId imageId : string)
  (album : Album.t) (image : Image.t) (db : Db)
  (Halbum : find (album_is albumId) (albums db) = Some album)
  (Haccess : hasAccess user album = true)
  (Himage : find (image_at imageId albumId) (images db)
            = Some image) :
  let toggle := setFavorite D user albumId imageId Js.Undefined in
  let stores := fun v flag =>
    exists before after,
      images db = before ++ image :: after /\
      setFavorite D user albumId imageId v db =
      ({| status := 200;
          body := FavoriteUpdated "Image favorite status updated" flag |},
       set_images (before ++ Image.set_isFavorite flag image :: after) db) /\
      find (image_at imageId albumId)
        (images (snd (setFavorite D user albumId imageId v db)))
      = Some (Image.set_isFavorite flag image) in
  (forall b, stores (Js.Bool b) (Some b)) /\
  stores Js.Null None /\
  (forall v flag,
      Js.defined v = true -> castBoolean D v = Some flag -> stores v flag) /\
  (forall v,
      Js.defined v = true -> castBoolean D v = None ->
      setFavorite D user albumId imageId v db =
      ({| status := 500; body := Error "Failed to update favorite status" |}, db)) /\
  stores Js.Undefined (Some (notFlag (Image.isFavorite image))) /\
  (forall b,
      Image.isFavorite image = Some b ->
      stores Js.Undefined (Some (negb b)) /\
      snd (toggle (snd (toggle db))) = db) /\
  (Image.isFavorite image = None ->
   stores Js.Undefined (Some true) /\
   option_map Image.isFavorite
     (find (image_at imageId albumId) (images (snd (toggle (snd (toggle db))))))
   = Some (Some false)) /\
  (forall flag,
      let image' := Image.set_isFavorite flag image in
      Image.isFavorite image' = flag /\
      Image.imageId image' = Image.imageId image /\
      Image.albumId image' = Image.albumId image /\
      Image.name image' = Image.name image /\
      Image.filename image' = Image.filename image /\
      Image.cloudinaryUrl image' = Image.cloudinaryUrl image /\
      Image.cloudinaryPublicId image' = Image.cloudinaryPublicId image /\
      Image.tags image' = Image.tags image /\
      Image.person image' = Image.person image /\
      Image.comments image' = Image.comments image /\
      Image.size image' = Image.size image /\
      Image.uploadedAt image' = Image.uploadedAt image /\
      Image.uploadedBy image' = Image.uploadedBy image).
Proof.
  intros toggle stores.
  destruct (find_split _ _ _ Himage) as (before & after & Hsplit & Hp & Hbefore).
  assert (Hset : forall v flag,
             (if Js.defined v then castBoolean D v
              else Some (Some (notFlag (Image.isFavorite image)))) = Some flag ->
             stores v flag).
  { intros v flag Hcast. exists before, after. split; [exact Hsplit|].
    rewrite (setFavorite_found D user albumId imageId album image db v flag
               Halbum Haccess Himage Hcast).
    cbn [snd set_images images].
    rewrite Hsplit, (replaceFirst_first _ _ _ _ _ Hbefore Hp).
    split; [reflexivity|]. apply find_first; [assumption | exact Hp]. }
  assert (Htwice :
             find (image_at imageId albumId)
               (images (snd (toggle (snd (toggle db)))))
             = Some (Image.set_isFavorite
                       (Some (notFlag (Some (notFlag (Image.isFavorite image)))))
                       image) /\
             snd (toggle (snd (toggle db)))
             = set_images
                 (before ++
                  Image.set_isFavorite
                    (Some (notFlag (Some (notFlag (Image.isFavorite image)))))
                    image :: after) db).
  { subst toggle. cbv beta.
    rewrite (setFavorite_found D user albumId imageId album image db Js.Undefined
               _ Halbum Haccess Himage eq_refl). cbn [snd].
    set (image1 := Image.set_isFavorite
                     (Some (notFlag (Image.isFavorite image))) image).
    assert (Hp1 : image_at imageId albumId image1 = true) by exact Hp.
    rewrite Hsplit, (replaceFirst_first _ _ _ _ _ Hbefore Hp).
    rewrite (setFavorite_found D user albumId imageId album image1
               (set_images (before ++ image1 :: after) db) Js.Undefined
               (Some (notFlag (Image.isFavorite image1))));
      [| exact Halbum | exact Haccess
       | cbn [set_images images]; now apply find_first | reflexivity].
    cbn [snd set_images images albums].
    rewrite (replaceFirst_first _ _ _ _ _ Hbefore Hp1).
    replace (Image.set_isFavorite (Some (notFlag (Image.isFavorite image1))) image1)
      with (Image.set_isFavorite
              (Some (notFlag (Some (notFlag (Image.isFavorite image))))) image)
      by (subst image1; reflexivity).
    split; [|reflexivity]. apply find_first; [assumption | exact Hp]. }
  split; [intros b; apply Hset; cbn; apply castBoolean_Bool|].
  split; [apply Hset; cbn; apply castBoolean_Null|].
  split; [intros v flag Hdef Hcast; apply Hset; now rewrite Hdef|].
  split; [intros v Hdef Hcast;
          now apply (setFavorite_refused D user albumId imageId album image)|].
  split; [now apply Hset|].
  split; [|split].
  - intros b Hb. split; [apply Hset; cbn; now rewrite Hb|].
    destruct Htwice as [_ ->]. rewrite Hb. cbn [notFlag].
    rewrite negb_involutive, <- Hb.
    replace (Image.set_isFavorite (Image.isFavorite image) image) with image
      by now destruct image.
    rewrite <- Hsplit. now destruct db.
  - intros Hnull. split; [apply Hset; cbn; now rewrite Hnull|].
    destruct Htwice as [-> _]. rewrite Hnull. reflexivity.
  - intros flag. cbn. repeat split.
Qed.

Lemma setFavorite_sets_or_toggles_witness :
  find (album_is "a1") (albums tripDb) = Some trip /\
  hasAccess bob trip = true /\
  find (image_at "i2" "a1") (images tripDb) = Some beach /\
  snd (setFavorite strictDriver bob "a1" "i2" Js.Undefined
         (snd (setFavorite strictDriver bob "a1" "i2" Js.Undefined tripDb))) = tripDb /\
  option_map Image.isFavorite
    (find (image_at "i2" "a1")
       (images (snd (setFavorite strictDriver bob "a1" "i2" (Js.Bool false) tripDb))))
  = Some (Some false).
Proof.
  split; [reflexivity|]. split; [reflexivity|]. split; [reflexivity|].
  destruct (setFavorite_sets_or_toggles strictDriver bob "a1" "i2" trip beach tripDb
              eq_refl eq_refl eq_refl) as (Hbool & _ & _ & _ & _ & Htwice & _).
  split.
  - exact (proj2 (Htwice true eq_refl)).
  - destruct (Hbool false) as (before & after & _ & _ & ->). reflexivity.
Defined.

Lemma addComment_found (user : User.t) (now : Z) (albumId imageId : string)
  (album : Album.t) (image : Image.t) (db : Db) (text : string) :
  find (album_is albumId) (albums db) = Some album ->
  hasAccess user album = true ->
  find (image_at imageId albumId) (images db) = Some image ->
  Js.trim text <> "" ->
  let image' :=
    Image.set_comments
      (Image.comments image ++
         [{| Comment.userId := User.userId user;
             Comment.userEmail := User.email user;
             Comment.comment := Js.trim text;
             Comment.createdAt := now |}]) image in
  addComment user now albumId imageId (Js.Str text) db =
  ({| status := 200;
      body := CommentAdded "Comment added successfully" (Image.comments image') |},
   set_images (replaceFirst (image_at imageId albumId) image' (images db)) db).
Proof.
  intros Halbum Haccess Himage Htrim image'.
  destruct (found_image _ _ _ _ Himage) as (_ & Hid & Hin).
  assert (Htext : text <> "") by (intros ->; now apply Htrim).
  apply String.eqb_neq in Htext, Htrim.
  unfold addComment, emptyComment, String_trim. handler.
  rewrite Htext; cbn. rewrite Htrim; cbn.
  rewrite Halbum; cbn. rewrite Haccess; cbn. rewrite Himage; cbn.
  now rewrite Hid, Hin.
Qed.

Lemma addComment_empty (user : User.t) (now : Z) (albumId imageId : string)
  (db : Db) (text : string) :
  Js.trim text = "" ->
  addComment user now albumId imageId (Js.Str text) db =
  ({| status := 400; body := Error "Comment cannot be empty" |}, db).
Proof.
  intros Htrim. unfold addComment, emptyComment, String_trim. handler.
  destruct (text =? "") eqn:Htext; cbn; [reflexivity|].
  apply String.eqb_eq in Htrim. now rewrite Htrim.
Qed.

(** C6: with the album found, access granted and the image found, a
    comment whose text is a string is refused with 400 exactly when the
    text is empty after trimming (and so is an absent comment).
    Otherwise the call answers 200 and the image's comment list is the
    old list followed by one comment carrying the caller's [userId] and
    email, the trimmed text and the current time; the old comments stay
    in place and no other field of the image changes. *)
Theorem addComment_appends_one
  (user : User.t) (now : Z) (albumId imageId : string)
  (album : Album.t) (image : Image.t) (db : Db) (text : string)
  (Halbum : find (album_is albumId) (albums db) = Some album)
  (Haccess : hasAccess user album = true)
  (Himage : find (image_at imageId albumId) (images db) = Some image) :
  let response := fst (addComment user now albumId imageId (Js.Str text) db) in
  let db' := snd (addComment user now albumId imageId (Js.Str text) db) in
  let added :=
    {| Comment.userId := User.userId user;
       Comment.userEmail := User.email user;
       Comment.comment := Js.trim text;
       Comment.createdAt := now |} in
  let image' := Image.set_comments (Image.comments image ++ [added]) image in
  (status response = 400 <-> Js.trim text = "") /\
  (Js.trim text = "" ->
   response = {| status := 400; body := Error "Comment cannot be empty" |} /\
   db' = db) /\
  addComment user now albumId imageId Js.Undefined db =
  ({| status := 400; body := Error "Comment cannot be empty" |}, db) /\
  (Js.trim text <> "" ->
   exists before after,
     images db = before ++ image :: after /\
     response =
     {| status := 200;
        body := CommentAdded "Comment added successfully"
                  (Image.comments image ++ [added]) |} /\
     db' = set_images (before ++ image' :: after) db /\
     find (image_at imageId albumId) (images db') = Some image') /\
  length (Image.comments image') = S (length (Image.comments image)) /\
  last (Image.comments image') added = added /\
  firstn (length (Image.comments image)) (Image.comments image')
  = Image.comments image /\
  Image.set_comments (Image.comments image) image' = image.
Proof.
  intros response db' added image'.
  destruct (find_split _ _ _ Himage) as (before & after & Hsplit & Hp & Hbefore).
  assert (Hrun : Js.trim text <> "" ->
                 addComment user now albumId imageId (Js.Str text) db =
                 ({| status := 200;
                     body := CommentAdded "Comment added successfully"
                               (Image.comments image ++ [added]) |},
                  set_images (before ++ image' :: after) db)).
  { intros Htrim.
    rewrite (addComment_found user now albumId imageId album image db text
               Halbum Haccess Himage Htrim).
    cbn. rewrite Hsplit at 1.
    now rewrite (replaceFirst_first _ _ _ _ _ Hbefore Hp). }
  split; [|split; [|split; [|split]]].
  - subst response. destruct (string_dec (Js.trim text) "") as [He | Hne].
    + rewrite (addComment_empty _ _ _ _ _ _ He). cbn. tauto.
    + rewrite (Hrun Hne). cbn. split; [discriminate | contradiction].
  - intros He. subst response db'.
    rewrite (addComment_empty _ _ _ _ _ _ He). now split.
  - reflexivity.
  - intros Hne. exists before, after. subst response db'.
    rewrite (Hrun Hne). cbn [fst snd set_images images].
    repeat split; try assumption.
    now apply find_first.
  - subst image'. cbn. rewrite length_app. cbn. split; [lia|].
    split; [apply last_last|].
    split; [|now destruct image].
    rewrite firstn_app, firstn_all, Nat.sub_diag. cbn. apply app_nil_r.
Qed.

Lemma addComment_appends_one_witness :
  find (album_is "a1") (albums tripDb) = Some trip /\
  hasAccess bob trip = true /\
  find (image_at "i1" "a1") (images tripDb) = Some sunset /\
  (status (fst (addComment bob 40 "a1" "i1" (Js.Str "  ") tripDb)) = 400 <->
   Js.trim "  " = "") /\
  (status (fst (addComment bob 40 "a1" "i1" (Js.Str " wow ") tripDb)) = 400 <->
   Js.trim " wow " = "").
Proof.
  split; [reflexivity|]. split; [reflexivity|]. split; [reflexivity|]. split.
  - apply (addComment_appends_one bob 40 "a1" "i1" trip sunset tripDb "  "
             eq_refl eq_refl eq_refl).
  - apply (addComment_appends_one bob 40 "a1" "i1" trip sunset tripDb " wow "
             eq_refl eq_refl eq_refl).
Defined.

(** ** Credentials *)

(** C7 as stated fails: a request without a token and a request with an
    expired token are both refused, with different responses. *)
Lemma unauthorized_responses_differ :
  serve strictDriver anonymous (GetAlbum "a1") tripDb = (noToken, tripDb) /\
  serve strictDriver (withCookie "old.jwt") (GetAlbum "a1") tripDb
  = (badToken, tripDb) /\
  fst (serve strictDriver anonymous (GetAlbum "a1") tripDb) <>
  fst (serve strictDriver (withCookie "old.jwt") (GetAlbum "a1") tripDb).
Proof.
  split; [reflexivity|]. split; [reflexivity|]. cbn. discriminate.
Qed.

(** C7, amended: every failure of the credential check answers 401 and
    the route is not run.  A token that [jwt.verify] refuses is answered
    the same way whatever the reason (malformed, bad signature,
    expired); a missing token is answered with a message of its own. *)
Theorem verifyJWT_failures_unauthorized (D : Driver) (req : Request) :
  let token := Js.or (cookies_jwt_token req) (bearer req) in
  (Js.truthy token = false -> verifyJWT D req = inl noToken) /\
  (forall reason,
      Js.truthy token = true -> verify D token = Rejected reason ->
      verifyJWT D req = inl badToken) /\
  (forall response,
      verifyJWT D req = inl response ->
      status response = 401 /\
      (response = noToken \/ response = badToken) /\
      forall c db, serve D req c db = (response, db)) /\
  (forall decoded,
      verifyJWT D req = inr decoded <->
      Js.truthy token = true /\ verify D token = Decoded decoded).
Proof.
  intros token.
  assert (Hserve : forall response,
             verifyJWT D req = inl response ->
             forall c db, serve D req c db = (response, db)).
  { intros response H c db. unfold serve. now rewrite H. }
  unfold verifyJWT in *. fold token in Hserve |- *.
  destruct (Js.truthy token) eqn:Ht; cbn.
  - destruct (verify D token) as [claims | e] eqn:Hv.
    + split; [discriminate|]. split; [discriminate|]. split; [discriminate|].
      intros decoded. split; [intros [= <-]; now split | intros [_ [= <-]]; reflexivity].
    + split; [discriminate|]. split; [reflexivity|]. split.
      * intros response [= <-]. split; [reflexivity|].
        split; [now right | now apply Hserve].
      * intros decoded. split; [discriminate | intros [_ [=]]].
  - split; [reflexivity|]. split; [discriminate|]. split.
    + intros response [= <-]. split; [reflexivity|].
      split; [now left | now apply Hserve].
    + intros decoded. split; [discriminate | intros [[=] _]].
Qed.

Lemma verifyJWT_failures_unauthorized_witness :
  verifyJWT strictDriver (withBearer "Bearer") = inl noToken /\
  verifyJWT strictDriver (withBearer "Bearer old.jwt") = inl badToken /\
  verifyJWT strictDriver (withCookie "forged") = inl badToken.
Proof.
  split; [|split].
  - now apply (verifyJWT_failures_unauthorized strictDriver (withBearer "Bearer")).
  - now apply (verifyJWT_failures_unauthorized strictDriver
                 (withBearer "Bearer old.jwt")) with (reason := TokenExpiredError).
  - now apply (verifyJWT_failures_unauthorized strictDriver (withCookie "forged"))
      with (reason := JsonWebTokenError).
Defined.

(** ** Updating the description *)

Lemma same_but_description_refl (l : list Album.t) :
  Forall2 same_but_description l l.
Proof. induction l; constructor; [now repeat split | assumption]. Qed.

Lemma same_but_description_replaceFirst (albumId : string) (album : Album.t)
  (d : string) (l : list Album.t) :
  find (album_is albumId) l = Some album ->
  Forall2 same_but_description l
    (replaceFirst (album_is albumId) (Album.set_description d album) l).
Proof.
  intros H. destruct (find_split _ _ _ H) as (before & after & -> & Hp & Hbefore).
  rewrite (replaceFirst_first _ _ _ _ _ Hbefore Hp).
  apply Forall2_app; [apply same_but_description_refl|].
  constructor; [now repeat split | apply same_but_description_refl].
Qed.

(** C9: an update of the description never touches the images, and
    leaves every album with its [albumId], [name], [ownerId],
    [ownerEmail], [sharedWith] and [createdAt].  When the new
    description is falsy (absent, null, the empty string, ...) the
    database is left as it was, and the owner is answered 200 with the
    description the album had; a non-empty string from the owner
    replaces the description of that album only. *)
Theorem updateAlbum_changes_description_only
  (D : Driver) (user : User.t) (albumId : string) (description : Js.Value)
  (db : Db) :
  let response := fst (updateAlbum D user albumId description db) in
  let db' := snd (updateAlbum D user albumId description db) in
  images db' = images db /\
  Forall2 same_but_description (albums db) (albums db') /\
  (Js.truthy description = false -> db' = db) /\
  (forall album,
      find (album_is albumId) (albums db) = Some album ->
      Album.ownerId album = User.userId user ->
      (Js.truthy description = false ->
       response =
       {| status := 200;
          body := AlbumUpdated "Album updated successfully" albumId
                    (Album.name album) (Album.description album) |}) /\
      (forall d,
          description = Js.Str d -> d <> "" ->
          response =
          {| status := 200;
             body := AlbumUpdated "Album updated successfully" albumId
                       (Album.name album) d |} /\
          exists before after,
            albums db = before ++ album :: after /\
            albums db' = before ++ Album.set_description d album :: after)).
Proof.
  intros response db'. subst response db'.
  unfold updateAlbum. handler.
  destruct (find (album_is albumId) (albums db)) as [album|] eqn:Hfound; cbn.
  2:{ split; [reflexivity|]. split; [apply same_but_description_refl|].
      split; [reflexivity | discriminate]. }
  destruct (found_album _ _ _ Hfound) as [Hin Hid].
  destruct (Album.ownerId album =? User.userId user) eqn:Hown; cbn.
  2:{ apply String.eqb_neq in Hown.
      split; [reflexivity|]. split; [apply same_but_description_refl|].
      split; [reflexivity|]. intros a [= <-]. contradiction. }
  unfold Js.or. destruct (Js.truthy description) eqn:Ht.
  - destruct (castString D description) as [d'|] eqn:Hcast; cbn.
    + rewrite Hid. split; [reflexivity|].
      split; [now apply same_but_description_replaceFirst|].
      split; [discriminate|].
      intros a [= <-] _. split; [discriminate|].
      intros d -> Hd. rewrite castString_Str in Hcast. injection Hcast as <-.
      split; [reflexivity|].
      destruct (find_split _ _ _ Hfound) as (before & after & Hsplit & Hp & Hbefore).
      exists before, after. split; [exact Hsplit|].
      rewrite Hsplit at 1. now apply replaceFirst_first.
    + split; [reflexivity|]. split; [apply same_but_description_refl|].
      split; [discriminate|].
      intros a [= <-] _. split; [discriminate|].
      intros d -> _. now rewrite castString_Str in Hcast.
  - rewrite castString_Str; cbn. rewrite Hid, set_description_same.
    rewrite (replaceFirst_found _ _ _ Hfound), set_albums_same.
    split; [reflexivity|]. split; [apply same_but_description_refl|].
    split; [reflexivity|].
    intros a [= <-] _. split; [reflexivity|].
    intros d -> Hd. cbn in Ht. apply negb_false_iff, String.eqb_eq in Ht.
    contradiction.
Qed.

Lemma updateAlbum_changes_description_only_witness :
  updateAlbum strictDriver alice "a1" (Js.Str "") tripDb =
  ({| status := 200;
      body := AlbumUpdated "Album updated successfully" "a1" "Trip" "Goa" |},
   tripDb) /\
  snd (updateAlbum strictDriver alice "a1" Js.Undefined tripDb) = tripDb.
Proof.
  destruct (updateAlbum_changes_description_only strictDriver alice "a1"
              (Js.Str "") tripDb) as (_ & _ & Hsame & Howner).
  destruct (Howner trip eq_refl eq_refl) as [Hfalsy _].
  split.
  - rewrite (surjective_pairing (updateAlbum strictDriver alice "a1" (Js.Str "") tripDb)).
    now rewrite (Hfalsy eq_refl), (Hsame eq_refl).
  - now apply (updateAlbum_changes_description_only strictDriver alice "a1"
                 Js.Undefined tripDb).
Defined.

(** ** Validation of the body comes first *)

(** C10: the share call checks [emails] and the comment call checks the
    comment before they look anything up.  Whatever the database holds
    and whoever calls, emails that are missing, not an array or an empty
    array are answered 400, and so is a comment that is absent or empty
    after trimming; the database is left as it was. *)
Theorem body_validation_precedes_lookup
  (user : User.t) (now : Z) (albumId imageId : string) (db : Db) :
  (forall emails,
      emails = Js.Undefined \/ Js.Array_isArray emails = false \/ emails = Js.Arr [] ->
      shareAlbum user albumId emails db =
      ({| status := 400; body := Error "Valid email array is required" |}, db)) /\
  (forall comment,
      comment = Js.Undefined \/
      (exists text, comment = Js.Str text /\ Js.trim text = "") ->
      addComment user now albumId imageId comment db =
      ({| status := 400; body := Error "Comment cannot be empty" |}, db)).
Proof.
  split.
  - intros emails H. unfold shareAlbum. handler.
    destruct H as [-> | [H | ->]]; try reflexivity.
    rewrite H. cbn. now rewrite orb_true_r.
  - intros comment [-> | (text & -> & Htrim)]; [reflexivity|].
    now apply addComment_empty.
Qed.

Lemma body_validation_precedes_lookup_witness :
  shareAlbum carol "nowhere" (Js.Str "bob@x.com") tripDb =
  ({| status := 400; body := Error "Valid email array is required" |}, tripDb) /\
  shareAlbum carol "a1" (Js.Arr []) tripDb =
  ({| status := 400; body := Error "Valid email array is required" |}, tripDb) /\
  addComment carol 40 "nowhere" "i1" (Js.Str "   ") emptyDb =
  ({| status := 400; body := Error "Comment cannot be empty" |}, emptyDb).
Proof.
  split; [|split].
  - apply (body_validation_precedes_lookup carol 40 "nowhere" "i1" tripDb).
    right. left. reflexivity.
  - apply (body_validation_precedes_lookup carol 40 "a1" "i1" tripDb).
    right. right. reflexivity.
  - apply (body_validation_precedes_lookup carol 40 "nowhere" "i1" emptyDb).
    right. exists "   ". split; reflexivity.
Defined.

(** ** Tags of an upload *)

Lemma parsedTags_literal (D : Driver) (l : list string) :
  parsedTags D (Js.Arr l) = Js.Arr l.
Proof. reflexivity. Qed.

Lemma parsedTags_encoded (D : Driver) (s : string) (v : Js.Value) :
  JSON_parse D s = Some v -> parsedTags D (Js.Str s) = v.
Proof.
  intros H. unfold parsedTags. cbn.
  destruct (s =? "") eqn:Hs; cbn.
  - apply String.eqb_eq in Hs. subst s. rewrite JSON_parse_empty in H. discriminate.
  - now rewrite H.
Qed.

Lemma parsedTags_malformed (D : Driver) (s : string) :
  JSON_parse D s = None -> parsedTags D (Js.Str s) = Js.Arr [].
Proof.
  intros H. unfold parsedTags. cbn.
  destruct (s =? ""); cbn; [reflexivity | now rewrite H].
Qed.

Lemma uploadImage_parsed (D : Driver) (user : User.t) (uuidv4 : string) (now : Z)
  (albumId : string) (file : option File) (gateway : option UploadResult)
  (tags tags' person isFavorite : Js.Value) (db : Db) :
  parsedTags D tags = parsedTags D tags' ->
  uploadImage D user uuidv4 now albumId file gateway tags person isFavorite db =
  uploadImage D user uuidv4 now albumId file gateway tags' person isFavorite db.
Proof. intros H. unfold uploadImage. now rewrite H. Qed.

Lemma uploadImage_created (D : Driver) (user : User.t) (uuidv4 : string) (now : Z)
  (albumId : string) (file : File) (uploaded : UploadResult)
  (tags person isFavorite : Js.Value) (stored : option (list string))
  (person' : string) (album : Album.t) (db : Db) :
  find (album_is albumId) (albums db) = Some album ->
  hasAccess user album = true ->
  castStringArray D (parsedTags D tags) = Some stored ->
  castString D (Js.or person (Js.Str "")) = Some person' ->
  let image :=
    newImage user uuidv4 now albumId file uploaded stored person' isFavorite in
  ImageSchema_required image = true ->
  existsb (image_is uuidv4) (images db) = false ->
  uploadImage D user uuidv4 now albumId (Some file) (Some uploaded)
    tags person isFavorite db =
  ({| status := 201;
      body := ImageUploaded "Image uploaded successfully" (ImageView.project image) |},
   set_images (images db ++ [image]) db).
Proof.
  intros Halbum Haccess Htags Hperson image Hrequired Hfresh.
  unfold uploadImage, uploadToCloudinary, Image_insert. handler.
  rewrite Halbum; cbn. rewrite Haccess; cbn.
  rewrite Htags; cbn. rewrite Hperson; cbn.
  fold image. rewrite Hrequired; cbn. now rewrite Hfresh.
Qed.

Lemma find_uploaded (uuidv4 albumId : string) (l : list Image.t) (image : Image.t) :
  existsb (image_is uuidv4) l = false ->
  Image.imageId image = uuidv4 -> Image.albumId image = albumId ->
  find (image_at uuidv4 albumId) (l ++ [image]) = Some image.
Proof.
  intros Hfresh Hid Halb. apply find_first.
  - intros z Hz. unfold image_at.
    destruct (image_is uuidv4 z) eqn:Hzid; [|reflexivity].
    assert (existsb (image_is uuidv4) l = true) by (apply existsb_exists; eauto).
    congruence.
  - unfold image_at, image_is, image_in. rewrite Hid, Halb.
    now rewrite !String.eqb_refl.
Qed.

(** C8: an upload that passes the checks of the handler (file present,
    album found, access granted, media host answering, identifier fresh,
    required fields non-empty) is answered 201 and stores an image whose
    tags, read back from the database and shown in the response, are the
    list it was given, or the list its [tags] string decodes to; for a
    string that does not decode they are the empty list, the image being
    created all the same.  In every circumstance an upload with such a
    string is answered as the same upload without tags, so it adds no
    error of its own. *)
Theorem upload_tags_literal_encoded_or_empty
  (D : Driver) (user : User.t) (uuidv4 : string) (now : Z) (albumId : string)
  (file : File) (uploaded : UploadResult) (person isFavorite : Js.Value)
  (person' : string) (album : Album.t) (db : Db)
  (Halbum : find (album_is albumId) (albums db) = Some album)
  (Haccess : hasAccess user album = true)
  (Hperson : castString D (Js.or person (Js.Str "")) = Some person')
  (Hrequired :
     ImageSchema_required
       (newImage user uuidv4 now albumId file uploaded (Some []) person' isFavorite)
     = true)
  (Hfresh : existsb (image_is uuidv4) (images db) = false) :
  let upload := fun tags =>
    uploadImage D user uuidv4 now albumId (Some file) (Some uploaded)
      tags person isFavorite db in
  let created := fun tags l =>
    exists image,
      upload tags =
      ({| status := 201;
          body := ImageUploaded "Image uploaded successfully"
                    (ImageView.project image) |},
       set_images (images db ++ [image]) db) /\
      find (image_at uuidv4 albumId) (images (snd (upload tags))) = Some image /\
      Image.tags image = Some l /\
      ImageView.tags (ImageView.project image) = Some l /\
      image = newImage user uuidv4 now albumId file uploaded (Some l) person'
                isFavorite in
  (forall l, created (Js.Arr l) l) /\
  (forall s l, JSON_parse D s = Some (Js.Arr l) -> created (Js.Str s) l) /\
  (forall s, JSON_parse D s = None -> created (Js.Str s) []) /\
  (forall s anyFile gateway,
      JSON_parse D s = None ->
      uploadImage D user uuidv4 now albumId anyFile gateway
        (Js.Str s) person isFavorite db =
      uploadImage D user uuidv4 now albumId anyFile gateway
        Js.Undefined person isFavorite db).
Proof.
  intros upload created.
  assert (Hcreated : forall tags l,
             parsedTags D tags = Js.Arr l -> created tags l).
  { intros tags l Htags.
    exists (newImage user uuidv4 now albumId file uploaded (Some l) person'
              isFavorite).
    assert (Hup : upload tags =
                  ({| status := 201;
                      body := ImageUploaded "Image uploaded successfully"
                                (ImageView.project
                                   (newImage user uuidv4 now albumId file uploaded
                                      (Some l) person' isFavorite)) |},
                   set_images
                     (images db ++
                      [newImage user uuidv4 now albumId file uploaded (Some l)
                         person' isFavorite]) db)).
    { apply (uploadImage_created D user uuidv4 now albumId file uploaded tags
               person isFavorite (Some l) person' album db); auto.
      rewrite Htags. apply castStringArray_Arr. }
    split; [exact Hup|]. rewrite Hup. cbn [snd set_images images].
    split; [now apply find_uploaded|]. repeat split. }
  split; [intros l; apply Hcreated, parsedTags_literal|].
  split; [intros s l Hs; apply Hcreated; now apply parsedTags_encoded|].
  split; [intros s Hs; apply Hcreated; now apply parsedTags_malformed|].
  intros s anyFile gateway Hs. apply uploadImage_parsed.
  now rewrite parsedTags_malformed.
Qed.

Lemma upload_tags_literal_encoded_or_empty_witness :
  JSON_parse strictDriver "sunset,beach" = None /\
  JSON_parse strictDriver sunsetBeachJson = Some (Js.Arr ["sunset"; "beach"]) /\
  option_map Image.tags
    (find (image_at "i3" "a1")
       (images (snd (uploadImage strictDriver bob "i3" 50 "a1" (Some photo)
                       (Some stored) (Js.Str "sunset,beach") Js.Undefined
                       (Js.Str "true") tripDb))))
  = Some (Some []) /\
  option_map Image.tags
    (find (image_at "i3" "a1")
       (images (snd (uploadImage strictDriver bob "i3" 50 "a1" (Some photo)
                       (Some stored) (Js.Str sunsetBeachJson) Js.Undefined
                       (Js.Str "true") tripDb))))
  = Some (Some ["sunset"; "beach"]) /\
  option_map Image.tags
    (find (image_at "i3" "a1")
       (images (snd (uploadImage strictDriver bob "i3" 50 "a1" (Some photo)
                       (Some stored) (Js.Arr ["hill"; "dawn"]) Js.Undefined
                       (Js.Str "true") tripDb))))
  = Some (Some ["hill"; "dawn"]).
Proof.
  split; [reflexivity|]. split; [reflexivity|].
  destruct (upload_tags_literal_encoded_or_empty strictDriver bob "i3" 50 "a1"
              photo stored Js.Undefined (Js.Str "true") "" trip tripDb
              eq_refl eq_refl eq_refl eq_refl eq_refl) as (Hlist & Hjson & Hbad & _).
  split; [|split].
  - destruct (Hbad "sunset,beach" eq_refl) as (image & _ & Hfind & Htags & _).
    rewrite Hfind. cbn [option_map]. now rewrite Htags.
  - destruct (Hjson sunsetBeachJson ["sunset"; "beach"] eq_refl)
      as (image & _ & Hfind & Htags & _).
    rewrite Hfind. cbn [option_map]. now rewrite Htags.
  - destruct (Hlist ["hill"; "dawn"]) as (image & _ & Hfind & Htags & _).
    rewrite Hfind. cbn [option_map]. now rewrite Htags.
Defined.

(** ** Unique image identifiers *)

Lemma route_images (D : Driver) (user : User.t) (c : Call) (db : Db) :
  images_change (images db) (images (snd (route D user c db))).
Proof.
  destruct c; cbn [route].
  - unfold createAlbum, Album_insert. handler.
    repeat (split_match; cbn); apply images_kept.
  - unfold getAlbum. handler. repeat (split_match; cbn); apply images_kept.
  - unfold updateAlbum. handler. repeat (split_match; cbn); apply images_kept.
  - unfold shareAlbum. handler. repeat (split_match; cbn); apply images_kept.
  - unfold deleteAlbum. handler.
    repeat (split_match; cbn); try apply images_kept.
    apply images_purged.
  - unfold uploadImage, uploadToCloudinary, Image_insert. handler.
    repeat (split_match; cbn); try apply images_kept.
    now apply images_added.
  - unfold setFavorite. handler.
    destruct (find (album_is albumId) (albums db)) as [a|]; cbn;
      [|apply images_kept].
    destruct (negb (hasAccess user a)); cbn; [apply images_kept|].
    destruct (find (image_at imageId albumId) (images db)) as [i|] eqn:Hfound; cbn;
      [|apply images_kept].
    repeat (split_match; cbn); try apply images_kept; now apply images_saved.
  - unfold addComment, emptyComment, String_trim. handler.
    destruct comment; cbn; try apply images_kept.
    + destruct b; cbn; apply images_kept.
    + destruct (n =? 0)%Z; cbn; apply images_kept.
    + destruct (s =? ""); cbn; [apply images_kept|].
      destruct (Js.trim s =? ""); cbn; [apply images_kept|].
      destruct (find (album_is albumId) (albums db)) as [a|]; cbn;
        [|apply images_kept].
      destruct (negb (hasAccess user a)); cbn; [apply images_kept|].
      destruct (find (image_at imageId albumId) (images db)) as [i|] eqn:Hfound;
        cbn; [|apply images_kept].
      now apply images_saved.
  - unfold deleteImage, logged, cloudinary_destroy. handler.
    repeat (split_match; cbn); try apply images_kept; apply images_removed.
  - unfold getImageUrl. handler. repeat (split_match; cbn); apply images_kept.
Qed.

Lemma NoDup_map_filter {A B : Type} (f : A -> B) (q : A -> bool) (l : list A) :
  NoDup (map f l) -> NoDup (map f (filter q l)).
Proof.
  induction l as [|a l IH]; cbn; intros H; [assumption|].
  inversion H as [|? ? Hnotin Hnd]; subst.
  destruct (q a); cbn; [|now apply IH].
  constructor; [|now apply IH].
  intros Hin. apply Hnotin. apply in_map_iff in Hin.
  destruct Hin as (x & Hx & Hin). apply filter_In in Hin.
  rewrite <- Hx. now apply in_map.
Qed.

Lemma images_change_unique (l l' : list Image.t) :
  images_change l l' -> NoDup (map Image.imageId l) -> NoDup (map Image.imageId l').
Proof.
  intros Hc Hl. destruct Hc as [|i Hfresh|imageId albumId i Hid|imageId|albumId].
  - assumption.
  - rewrite map_app. apply NoDup_app; [assumption | repeat constructor; intros [] |].
    cbn. intros x Hx [<- | []].
    apply in_map_iff in Hx. destruct Hx as (y & Hy & Hin).
    assert (existsb (image_is (Image.imageId i)) l = true); [|congruence].
    apply existsb_exists. exists y. split; [assumption | now apply String.eqb_eq].
  - rewrite map_replaceFirst; [assumption|].
    intros x _ Hx. apply andb_true_iff in Hx. destruct Hx as [Hx _].
    apply String.eqb_eq in Hx. congruence.
  - now apply NoDup_map_removeFirst.
  - now apply NoDup_map_filter.
Qed.

(** The unique index on [imageId] holds in every database the server
    can reach. *)
Lemma reachable_unique_imageId (D : Driver) (db : Db) :
  reachable D db -> NoDup (map Image.imageId (images db)).
Proof.
  induction 1 as [|db req c Hr IH].
  - constructor.
  - apply (images_change_unique (images db)); [|exact IH].
    unfold serve. destruct (verifyJWT D req) as [response | decoded]; cbn.
    + apply images_kept.
    + apply route_images.
Qed.

(** Under the unique index, a granted deletion removes the image that
    was found and no other. *)
Lemma deleteImage_removes_found
  (user : User.t) (destroyed : bool) (albumId imageId : string)
  (album : Album.t) (image : Image.t) (db : Db) :
  NoDup (map Image.imageId (images db)) ->
  find (album_is albumId) (albums db) = Some album ->
  find (image_at imageId albumId) (images db) = Some image ->
  canDelete user album image = true ->
  exists before after,
    images db = before ++ image :: after /\
    snd (deleteImage user destroyed albumId imageId db)
    = set_images (before ++ after) db.
Proof.
  intros Hunique Halbum Himage Hcan.
  destruct (found_image _ _ _ _ Himage) as (_ & Hid & _).
  destruct (find_split _ _ _ Himage) as (before & after & Hsplit & Hp & Hbefore).
  exists before, after. split; [exact Hsplit|].
  unfold deleteImage, logged, cloudinary_destroy. handler.
  rewrite Halbum; cbn. rewrite Himage; cbn. rewrite Hcan; cbn.
  assert (Hrem : removeFirst (image_is imageId) (images db) = before ++ after).
  { rewrite Hsplit. apply removeFirst_first; [|now apply String.eqb_eq].
    intros z Hz. destruct (image_is imageId z) eqn:Hzid; [|reflexivity].
    exfalso. apply String.eqb_eq in Hzid.
    rewrite Hsplit, map_app in Hunique. cbn in Hunique.
    apply NoDup_remove_2 in Hunique. apply Hunique.
    apply in_or_app. left. rewrite Hid, <- Hzid. now apply in_map. }
  destruct destroyed; cbn; now rewrite Hrem.
Qed.

(** * Further properties of the routes *)

(** ** Regular expressions: the matcher against what is matched *)

Lemma append_empty_r (s : string) : (s ++ "")%string = s.
Proof. induction s as [|c s IH]; cbn; [reflexivity | now rewrite IH]. Qed.

Lemma append_assoc3 (a b c : string) :
  ((a ++ b) ++ c)%string = (a ++ b ++ c)%string.
Proof. induction a as [|x a IH]; cbn; [reflexivity | now rewrite IH]. Qed.

Lemma append_is_empty (a b : string) :
  (a ++ b)%string = "" -> a = "" /\ b = "".
Proof. destruct a; cbn; [auto | discriminate]. Qed.

Lemma matches_seq_iff (r1 r2 : Js.RegExp) (s : string) :
  matches (Js.Seq r1 r2) s <->
  exists s1 s2, s = (s1 ++ s2)%string /\ matches r1 s1 /\ matches r2 s2.
Proof.
  split.
  - intros H. inversion H; subst. eauto.
  - intros (s1 & s2 & -> & H1 & H2). now constructor.
Qed.

Lemma nullable_matches (r : Js.RegExp) :
  Js.nullable r = true <-> matches r "".
Proof.
  induction r as [| |p|r1 IH1 r2 IH2|r1 IH1 r2 IH2|r IH]; cbn.
  - split; [discriminate | intros H; inversion H].
  - split; [intros _; constructor | reflexivity].
  - split; [discriminate | intros H; inversion H].
  - rewrite andb_true_iff, IH1, IH2. split.
    + intros [H1 H2]. exact (matches_seq r1 r2 "" "" H1 H2).
    + intros H. apply matches_seq_iff in H. destruct H as (s1 & s2 & Heq & H1 & H2).
      symmetry in Heq. apply append_is_empty in Heq. destruct Heq; subst.
      now split.
  - rewrite orb_true_iff, IH1, IH2. split.
    + intros [H | H]; [now apply matches_alt_l | now apply matches_alt_r].
    + intros H. inversion H; subst; auto.
  - split; [intros _; constructor | reflexivity].
Qed.

Lemma matches_star_head (r : Js.RegExp) (c : ascii) (s : string) :
  matches (Js.Star r) (String c s) ->
  exists s1 s2,
    s = (s1 ++ s2)%string /\ matches r (String c s1) /\ matches (Js.Star r) s2.
Proof.
  intros H. remember (Js.Star r) as r' eqn:Hr. remember (String c s) as t eqn:Ht.
  revert Hr Ht.
  induction H as [| | | | | |r0 s1 s2 H1 _ H2 IH2]; intros Hr Ht;
    try discriminate.
  injection Hr as ->. destruct s1 as [|c1 s1]; cbn in Ht.
  - now apply IH2.
  - injection Ht as -> <-. now exists s1, s2.
Qed.

Lemma deriv_matches (c : ascii) (r : Js.RegExp) (s : string) :
  matches (Js.deriv c r) s <-> matches r (String c s).
Proof.
  revert s. induction r as [| |p|r1 IH1 r2 IH2|r1 IH1 r2 IH2|r IH]; intros s; cbn.
  - split; intros H; inversion H.
  - split; intros H; inversion H.
  - destruct (p c) eqn:Hp; split; intros H; inversion H; subst.
    + now constructor.
    + constructor.
    + congruence.
  - assert (Hseq : matches (Js.Seq (Js.deriv c r1) r2) s ->
                   matches (Js.Seq r1 r2) (String c s)).
    { intros H. apply matches_seq_iff in H. destruct H as (s1 & s2 & -> & H1 & H2).
      apply IH1 in H1. exact (matches_seq r1 r2 (String c s1) s2 H1 H2). }
    assert (Hinv : matches (Js.Seq r1 r2) (String c s) ->
                   matches (Js.Seq (Js.deriv c r1) r2) s \/
                   (matches r1 "" /\ matches r2 (String c s))).
    { intros H. apply matches_seq_iff in H. destruct H as (s1 & s2 & Heq & H1 & H2).
      destruct s1 as [|c1 s1]; cbn in Heq.
      - right. subst s2. now split.
      - injection Heq as <- ->. left.
        apply matches_seq; [now apply IH1 | assumption]. }
    destruct (Js.nullable r1) eqn:Hn.
    + split.
      * intros H. inversion H as [| | |? ? ? H1|? ? ? H2| |]; subst;
          [now apply Hseq|].
        apply nullable_matches in Hn.
        exact (matches_seq r1 r2 "" (String c s) Hn (proj1 (IH2 s) H2)).
      * intros H. destruct (Hinv H) as [H1 | [_ H2]].
        -- now apply matches_alt_l.
        -- apply matches_alt_r. now apply IH2.
    + split; [exact Hseq|].
      intros H. destruct (Hinv H) as [H1 | [H1 _]]; [assumption|].
      apply nullable_matches in H1. congruence.
  - split; intros H; inversion H; subst.
    + apply matches_alt_l. now apply IH1.
    + apply matches_alt_r. now apply IH2.
    + apply matches_alt_l. now apply IH1.
    + apply matches_alt_r. now apply IH2.
  - split.
    + intros H. apply matches_seq_iff in H. destruct H as (s1 & s2 & -> & H1 & H2).
      apply IH in H1. exact (matches_star_cons r (String c s1) s2 H1 H2).
    + intros H. destruct (matches_star_head r c s H) as (s1 & s2 & -> & H1 & H2).
      apply matches_seq; [now apply IH | assumption].
Qed.

(** The derivative matcher decides [matches]. *)
Lemma test_matches (r : Js.RegExp) (s : string) :
  Js.test r s = true <-> matches r s.
Proof.
  revert r. induction s as [|c s IH]; intros r; cbn.
  - apply nullable_matches.
  - rewrite IH. apply deriv_matches.
Qed.

Lemma matches_char (c : ascii) (s : string) :
  matches (Js.Char c) s <-> s = String c "".
Proof.
  unfold Js.Char. split.
  - intros H. inversion H as [|p c' Hc| | | | |]; subst.
    apply Ascii.eqb_eq in Hc. now subst.
  - intros ->. constructor. apply Ascii.eqb_refl.
Qed.

Lemma matches_star_class (p : ascii -> bool) (s : string) :
  matches (Js.Star (Js.Class p)) s <-> allChars p s = true.
Proof.
  split.
  - intros H. remember (Js.Star (Js.Class p)) as r eqn:Hr. revert Hr.
    induction H as [| | | | | |r0 s1 s2 H1 _ H2 IH2]; intros Hr; try discriminate.
    + reflexivity.
    + injection Hr as ->. inversion H1; subst. cbn.
      apply andb_true_iff. split; [assumption | now apply IH2].
  - induction s as [|c s IH]; cbn; intros H; [constructor|].
    apply andb_true_iff in H. destruct H as [Hc Hs].
    apply (matches_star_cons (Js.Class p) (String c "") s);
      [now constructor | now apply IH].
Qed.

Lemma matches_plus_class (p : ascii -> bool) (s : string) :
  matches (Js.Plus (Js.Class p)) s <-> s <> "" /\ allChars p s = true.
Proof.
  unfold Js.Plus. split.
  - intros H. apply matches_seq_iff in H. destruct H as (s1 & s2 & -> & H1 & H2).
    inversion H1; subst. apply matches_star_class in H2. cbn.
    split; [discriminate | now apply andb_true_iff].
  - intros [Hne H]. destruct s as [|c s]; [contradiction|]. cbn in H.
    apply andb_true_iff in H. destruct H as [Hc Hs].
    apply (matches_seq (Js.Class p) (Js.Star (Js.Class p)) (String c "") s);
      [now constructor | now apply matches_star_class].
Qed.

(** X1: the share route keeps an address exactly when it reads
    local "@" domain "." tld, the three parts non-empty and free of
    white space and of "@". *)
Theorem emailRegex_accepts_local_at_domain_dot_tld (s : string) :
  Js.test emailRegex s = true <->
  exists local domain tld,
    s = (local ++ "@" ++ domain ++ "." ++ tld)%string /\
    plainPart local /\ plainPart domain /\ plainPart tld.
Proof.
  rewrite test_matches. unfold emailRegex, plainPart. split.
  - intros H.
    apply matches_seq_iff in H. destruct H as (local & s1 & -> & Hl & H).
    apply matches_seq_iff in H. destruct H as (at' & s2 & -> & Ha & H).
    apply matches_seq_iff in H. destruct H as (domain & s3 & -> & Hd & H).
    apply matches_seq_iff in H. destruct H as (dot & tld & -> & Hp & Ht).
    apply matches_char in Ha, Hp. subst at' dot.
    apply matches_plus_class in Hl, Hd, Ht.
    exists local, domain, tld. auto.
  - intros (local & domain & tld & -> & Hl & Hd & Ht).
    apply matches_plus_class in Hl, Hd, Ht.
    repeat (apply matches_seq; [assumption || now apply matches_char |]).
    assumption.
Qed.

(** ** The upload filter *)

Lemma matches_word (w s : string) : matches (word w) s <-> s = w.
Proof.
  revert s. induction w as [|c w IH]; intros s; cbn.
  - split; [intros H; now inversion H | intros ->; constructor].
  - rewrite matches_seq_iff. split.
    + intros (s1 & s2 & -> & H1 & H2).
      apply matches_char in H1. apply IH in H2. now subst.
    + intros ->. exists (String c ""), w.
      split; [reflexivity|]. split; [now apply matches_char | now apply IH].
Qed.

Lemma matches_anything (s : string) : matches (Js.Star anyChar) s.
Proof.
  apply matches_star_class. induction s as [|c s IH]; cbn; auto.
Qed.

Lemma matches_search (r : Js.RegExp) (s : string) :
  matches (search r) s <->
  exists before found after,
    s = (before ++ found ++ after)%string /\ matches r found.
Proof.
  unfold search. rewrite matches_seq_iff. split.
  - intros (before & rest & -> & _ & H).
    apply matches_seq_iff in H. destruct H as (found & after & -> & H & _).
    now exists before, found, after.
  - intros (before & found & after & -> & H).
    exists before, (found ++ after)%string.
    split; [reflexivity|]. split; [apply matches_anything|].
    apply matches_seq; [assumption | apply matches_anything].
Qed.

Lemma matches_alt_iff (r1 r2 : Js.RegExp) (s : string) :
  matches (Js.Alt r1 r2) s <-> matches r1 s \/ matches r2 s.
Proof.
  split.
  - intros H. inversion H; subst; auto.
  - intros [H | H]; [now apply matches_alt_l | now apply matches_alt_r].
Qed.

Lemma matches_allowedTypes (s : string) :
  matches allowedTypes s <-> In s imageWords.
Proof.
  unfold allowedTypes, imageWords.
  rewrite !matches_alt_iff, !matches_word. cbn.
  intuition congruence.
Qed.

(** X2: the upload filter lets a file through exactly when its MIME type
    contains one of jpeg, jpg, png, gif, webp somewhere: the test is not
    anchored, so the type need not start with "image/". *)
Theorem fileFilter_accepts_types_containing_a_word (file : File) :
  fileFilter file = true <->
  exists before w after,
    In w imageWords /\ mimetype file = (before ++ w ++ after)%string.
Proof.
  unfold fileFilter. rewrite test_matches, matches_search. split.
  - intros (before & found & after & Heq & H).
    apply matches_allowedTypes in H. now exists before, found, after.
  - intros (before & w & after & Hw & Heq).
    exists before, w, after. split; [assumption | now apply matches_allowedTypes].
Qed.

Example fileFilter_samples :
  map (fun m => fileFilter {| originalname := "f"; mimetype := m |})
    ["image/png"; "image/jpeg"; "image/webp"; "image/gif"; "image/svg+xml";
     "application/pdf"; "text/x-png-notes"; ""]
  = [true; true; true; true; false; false; true; false].
Proof. reflexivity. Qed.

(** ** Where the token is read *)

Lemma split_no_separator (sep : ascii) (s : string) :
  allChars (fun c => negb (Ascii.eqb c sep)) s = true -> Js.split sep s = [s].
Proof.
  induction s as [|c s IH]; cbn; intros H; [reflexivity|].
  apply andb_true_iff in H. destruct H as [Hc Hs].
  apply negb_true_iff in Hc. rewrite Hc, (IH Hs). reflexivity.
Qed.

Lemma split_at_separator (sep : ascii) (a b : string) :
  allChars (fun c => negb (Ascii.eqb c sep)) a = true ->
  Js.split sep (a ++ String sep b) = a :: Js.split sep b.
Proof.
  induction a as [|c a IH]; cbn; intros H.
  - now rewrite Ascii.eqb_refl.
  - apply andb_true_iff in H. destruct H as [Hc Ha].
    apply negb_true_iff in Hc. rewrite Hc, (IH Ha). reflexivity.
Qed.

Lemma split_head (sep : ascii) (s : string) :
  exists h t, Js.split sep s = h :: t.
Proof.
  induction s as [|c s (h & t & IH)]; cbn; [now eexists _, _|].
  destruct (Ascii.eqb c sep); [now eexists _, _|].
  rewrite IH. now eexists _, _.
Qed.

(** X3: the token is the cookie [jwt_token] when there is one, whatever
    the Authorization header says; without a cookie it is the second
    word of the header, whatever the first word (the scheme) is; a
    header of one word gives no token and the answer is 401. *)
Theorem verifyJWT_token_source (D : Driver) :
  (forall token header,
      token <> "" ->
      verifyJWT D {| cookies_jwt_token := Js.Str token;
                     headers_authorization := header |}
      = verifyJWT D (withCookie token)) /\
  (forall cookie scheme token rest,
      Js.truthy cookie = false ->
      noSpace scheme = true -> noSpace token = true ->
      (verifyJWT D {| cookies_jwt_token := cookie;
                      headers_authorization := Some (scheme ++ " " ++ token)%string |}
       = verifyJWT D (withCookie token)) /\
      (verifyJWT D {| cookies_jwt_token := cookie;
                      headers_authorization :=
                        Some (scheme ++ " " ++ token ++ " " ++ rest)%string |}
       = verifyJWT D (withCookie token))) /\
  (forall cookie header,
      Js.truthy cookie = false -> noSpace header = true ->
      verifyJWT D {| cookies_jwt_token := cookie;
                     headers_authorization := Some header |}
      = inl noToken) /\
  (forall cookie,
      Js.truthy cookie = false ->
      verifyJWT D {| cookies_jwt_token := cookie; headers_authorization := None |}
      = inl noToken).
Proof.
  split; [|split; [|split]].
  - intros token header Hne. apply String.eqb_neq in Hne.
    unfold verifyJWT, Js.or. cbn. now rewrite Hne.
  - intros cookie scheme token rest Hc Hs Ht.
    assert (Hb : forall tail,
               Js.split " " tail = [token] \/
               (exists more, Js.split " " tail = token :: more) ->
               bearer {| cookies_jwt_token := cookie;
                         headers_authorization := Some (scheme ++ " " ++ tail)%string |}
               = Js.Str token).
    { intros tail Htail. unfold bearer. cbn [headers_authorization].
      change (scheme ++ " " ++ tail)%string with (scheme ++ String " " tail)%string.
      rewrite (split_at_separator " " scheme tail Hs).
      destruct Htail as [-> | [more ->]]; reflexivity. }
    assert (Hv : forall header,
               bearer {| cookies_jwt_token := cookie;
                         headers_authorization := header |} = Js.Str token ->
               verifyJWT D {| cookies_jwt_token := cookie;
                              headers_authorization := header |}
               = verifyJWT D (withCookie token)).
    { intros header Hbearer. unfold verifyJWT, Js.or.
      cbn [cookies_jwt_token withCookie]. rewrite Hc, Hbearer.
      destruct (string_dec token "") as [-> | Hne]; [reflexivity|].
      apply String.eqb_neq in Hne. cbn. rewrite Hne. cbn. now rewrite Hne. }
    split; apply Hv, Hb.
    + left. now apply split_no_separator.
    + right. change (token ++ " " ++ rest)%string
        with (token ++ String " " rest)%string.
      rewrite (split_at_separator " " token rest Ht). now eexists.
  - intros cookie header Hc Hh.
    unfold verifyJWT, Js.or, bearer. cbn [cookies_jwt_token headers_authorization].
    rewrite Hc, (split_no_separator " " header Hh). reflexivity.
  - intros cookie Hc. unfold verifyJWT, Js.or, bearer.
    cbn [cookies_jwt_token headers_authorization]. now rewrite Hc.
Qed.

Lemma verifyJWT_token_source_witness :
  verifyJWT strictDriver
    {| cookies_jwt_token := Js.Str "alice.jwt";
       headers_authorization := Some "Bearer bob.jwt" |} = inr alice /\
  verifyJWT strictDriver (withBearer "Basic bob.jwt") = inr bob /\
  verifyJWT strictDriver (withBearer "bob.jwt") = inl noToken.
Proof.
  destruct (verifyJWT_token_source strictDriver) as (Hcookie & Hheader & Hone & _).
  split; [|split].
  - rewrite (Hcookie "alice.jwt" (Some "Bearer bob.jwt")); [reflexivity | discriminate].
  - destruct (Hheader Js.Undefined "Basic" "bob.jwt" "" eq_refl eq_refl eq_refl)
      as [H _].
    exact H.
  - exact (Hone Js.Undefined "bob.jwt" eq_refl eq_refl).
Defined.

(** ** Refused calls *)

(** X4: a call under [/albums] that is answered with a 4xx status
    (validation, credentials, access, not found) has written nothing:
    every check of a handler comes before its first write. *)
Theorem client_error_leaves_database (D : Driver) (req : Request) (c : Call)
  (db : Db) :
  clientError (fst (serve D req c db)) = true -> snd (serve D req c db) = db.
Proof.
  unfold serve. destruct (verifyJWT D req) as [response | user]; [reflexivity|].
  cbn [router_verifyJWT]. destruct c; cbn [route].
  - unfold createAlbum, Album_insert. handler.
    repeat (split_match; cbn); intros; try reflexivity; discriminate.
  - unfold getAlbum. handler.
    repeat (split_match; cbn); intros; try reflexivity; discriminate.
  - unfold updateAlbum. handler.
    repeat (split_match; cbn); intros; try reflexivity; discriminate.
  - unfold shareAlbum. handler.
    repeat (split_match; cbn); intros; try reflexivity; discriminate.
  - unfold deleteAlbum. handler.
    repeat (split_match; cbn); intros; try reflexivity; discriminate.
  - unfold uploadImage, uploadToCloudinary, Image_insert. handler.
    repeat (split_match; cbn); intros; try reflexivity; discriminate.
  - unfold setFavorite. handler.
    repeat (split_match; cbn); intros; try reflexivity; discriminate.
  - unfold addComment, emptyComment, String_trim. handler.
    repeat (split_match; cbn); intros; try reflexivity; discriminate.
  - unfold deleteImage, logged, cloudinary_destroy. handler.
    repeat (split_match; cbn); intros; try reflexivity; discriminate.
  - unfold getImageUrl. handler.
    repeat (split_match; cbn); intros; try reflexivity; discriminate.
Qed.

Lemma client_error_leaves_database_witness :
  clientError (fst (serve strictDriver (withCookie "carol.jwt")
                      (DeleteAlbum "a1") tripDb)) = true /\
  snd (serve strictDriver (withCookie "carol.jwt") (DeleteAlbum "a1") tripDb)
  = tripDb.
Proof.
  split; [reflexivity|].
  now apply (client_error_leaves_database strictDriver (withCookie "carol.jwt")
               (DeleteAlbum "a1") tripDb).
Defined.

(** ** Creating an album and reading it back *)

Lemma find_appended {A : Type} (p : A -> bool) (l : list A) (x : A) :
  existsb p l = false -> p x = true -> find p (l ++ [x]) = Some x.
Proof.
  intros Hl Hx. rewrite <- (app_nil_r [x]). cbn [app]. apply find_first; [|assumption].
  intros z Hz. destruct (p z) eqn:Hpz; [|reflexivity].
  assert (existsb p l = true) by (apply existsb_exists; eauto). congruence.
Qed.

(** X5: a create call without a name is answered 400 and one whose
    identifier is taken is not answered 201; neither writes.  After a
    create answered 201 the creator reads the album back by its
    identifier: it carries the caller as owner, the given time and no
    shared member, and every caller with another [userId] is answered
    403. *)
Theorem createAlbum_then_getAlbum (D : Driver) (user : User.t)
  (uuidv4 : string) (now : Z) (name description : Js.Value) (db : Db) :
  let response := fst (createAlbum D user uuidv4 now name description db) in
  let db' := snd (createAlbum D user uuidv4 now name description db) in
  (Js.truthy name = false ->
   response = {| status := 400; body := Error "Album name is required" |} /\
   db' = db) /\
  (existsb (album_is uuidv4) (albums db) = true ->
   status response <> 201 /\ db' = db) /\
  (status response = 201 ->
   exists album,
     albums db' = albums db ++ [album] /\
     getAlbum user uuidv4 db' = ({| status := 200; body := AlbumDoc album |}, db') /\
     Album.albumId album = uuidv4 /\
     castString D name = Some (Album.name album) /\
     Album.ownerId album = User.userId user /\
     Album.ownerEmail album = User.email user /\
     Album.sharedWith album = [] /\
     Album.createdAt album = now /\
     forall other,
       User.userId other <> User.userId user ->
       getAlbum other uuidv4 db' =
       ({| status := 403; body := Error "You do not have access to this album" |},
        db')).
Proof.
  intros response db'. subst response db'.
  unfold createAlbum, Album_insert. handler.
  destruct (Js.truthy name) eqn:Hname; cbn.
  2:{ split; [now split|]. split; [intros _; split; [discriminate | reflexivity]|].
      discriminate. }
  split; [discriminate|].
  destruct (castString D name) as [name'|]; cbn.
  2:{ split; [intros _; split; [discriminate | reflexivity] | discriminate]. }
  destruct (castString D (Js.or description (Js.Str ""))) as [description'|]; cbn.
  2:{ split; [intros _; split; [discriminate | reflexivity] | discriminate]. }
  match goal with
  | |- context [AlbumSchema_required ?a] =>
      set (album := a); destruct (AlbumSchema_required album) eqn:Hreq; cbn
  end.
  2:{ split; [intros _; split; [discriminate | reflexivity] | discriminate]. }
  destruct (existsb (album_is uuidv4) (albums db)) eqn:Hfresh; cbn.
  { split; [intros _; split; [discriminate | reflexivity] | discriminate]. }
  split; [discriminate|]. intros _. exists album.
  assert (Hfind : find (album_is uuidv4) (albums db ++ [album]) = Some album).
  { apply find_appended; [assumption | apply String.eqb_refl]. }
  split; [reflexivity|].
  assert (Hown : hasAccess user album = true).
  { unfold hasAccess. cbn. now rewrite String.eqb_refl. }
  split.
  { unfold getAlbum. handler. rewrite Hfind; cbn. now rewrite Hown. }
  repeat (split; [reflexivity|]).
  intros other Hother. unfold getAlbum. handler. rewrite Hfind; cbn.
  unfold hasAccess. cbn. apply not_eq_sym, String.eqb_neq in Hother.
  now rewrite Hother.
Qed.

Lemma createAlbum_then_getAlbum_witness :
  status (fst (createAlbum strictDriver carol "a2" 60 (Js.Str "Hills") Js.Undefined
                 tripDb)) = 201 /\
  exists album,
    getAlbum carol "a2"
      (snd (createAlbum strictDriver carol "a2" 60 (Js.Str "Hills") Js.Undefined
              tripDb))
    = ({| status := 200; body := AlbumDoc album |},
       snd (createAlbum strictDriver carol "a2" 60 (Js.Str "Hills") Js.Undefined
              tripDb)) /\
    Album.ownerId album = "u-carol".
Proof.
  split; [reflexivity|].
  destruct (createAlbum_then_getAlbum strictDriver carol "a2" 60 (Js.Str "Hills")
              Js.Undefined tripDb) as (_ & _ & Hcreated).
  destruct (Hcreated eq_refl) as (album & _ & Hget & _ & _ & Hown & _).
  exists album. split; [exact Hget | exact Hown].
Defined.

(** ** Sharing gives access; only the owner shares and updates *)

(** X6: once the owner has shared an album with a valid address that is
    not the owner's own, every caller whose token carries that address
    reads the album (200), and those who read it before still do. *)
Theorem shareAlbum_then_getAlbum (owner : User.t) (albumId : string)
  (emails : list string) (email : string) (album : Album.t) (db : Db)
  (Hfound : find (album_is albumId) (albums db) = Some album)
  (Howner : Album.ownerId album = User.userId owner)
  (Hlisted : In email emails)
  (Hvalid : Js.test emailRegex email = true)
  (Hother : email <> Album.ownerEmail album) :
  let db' := snd (shareAlbum owner albumId (Js.Arr emails) db) in
  exists album',
    find (album_is albumId) (albums db') = Some album' /\
    In email (Album.sharedWith album') /\
    (forall member,
        User.email member = email ->
        getAlbum member albumId db' =
        ({| status := 200; body := AlbumDoc album' |}, db')) /\
    (forall reader,
        hasAccess reader album = true ->
        getAlbum reader albumId db' =
        ({| status := 200; body := AlbumDoc album' |}, db')).
Proof.
  intros db'. subst db'.
  assert (Hin : In email (filter (Js.test emailRegex) emails))
    by (apply filter_In; now split).
  assert (Hne : filter (Js.test emailRegex) emails <> [])
    by (intros H; rewrite H in Hin; exact Hin).
  rewrite (shareAlbum_owner owner albumId emails album db Hfound Howner Hne).
  cbn [snd].
  set (shared := fold_left (pushShared (Album.ownerEmail album))
                   (filter (Js.test emailRegex) emails) (Album.sharedWith album)).
  set (album' := Album.set_sharedWith shared album).
  destruct (find_split _ _ _ Hfound) as (before & after & Hsplit & Hp & Hbefore).
  assert (Hfind : find (album_is albumId)
                    (replaceFirst (album_is albumId) album' (albums db))
                  = Some album').
  { rewrite Hsplit, (replaceFirst_first _ _ _ _ _ Hbefore Hp).
    now apply find_first. }
  assert (Hshared : forall e, In e shared <->
                              In e (Album.sharedWith album) \/
                              (In e (filter (Js.test emailRegex) emails) /\
                               e <> Album.ownerEmail album))
    by (intros e; apply share_members).
  assert (Hget : forall who,
             hasAccess who album' = true ->
             getAlbum who albumId
               (set_albums (replaceFirst (album_is albumId) album' (albums db)) db)
             = ({| status := 200; body := AlbumDoc album' |},
                set_albums (replaceFirst (album_is albumId) album' (albums db)) db)).
  { intros who Hwho. unfold getAlbum. handler.
    cbn in Hfind. rewrite Hfind; cbn. now rewrite Hwho. }
  exists album'. split; [exact Hfind|]. split; [apply Hshared; auto|]. split.
  - intros member Hmember. apply Hget, hasAccess_iff. right.
    rewrite Hmember. apply Hshared. auto.
  - intros reader Hreader. apply Hget.
    apply hasAccess_iff in Hreader. apply hasAccess_iff.
    destruct Hreader as [H | H]; [now left | right]. apply Hshared. now left.
Qed.

Lemma shareAlbum_then_getAlbum_witness :
  Js.test emailRegex "carol@x.com" = true /\
  exists album',
    getAlbum carol "a1" (snd (shareAlbum alice "a1" (Js.Arr ["carol@x.com"]) tripDb))
    = ({| status := 200; body := AlbumDoc album' |},
       snd (shareAlbum alice "a1" (Js.Arr ["carol@x.com"]) tripDb)).
Proof.
  split; [reflexivity|].
  destruct (shareAlbum_then_getAlbum alice "a1" ["carol@x.com"] "carol@x.com" trip
              tripDb eq_refl eq_refl (or_introl eq_refl) eq_refl)
    as (album' & _ & _ & Hmember & _).
  - discriminate.
  - exists album'. now apply Hmember.
Defined.

(** X7: for an album that exists, a caller whose [userId] is not the
    owner's is answered 403 by the update and by the share route, with
    nothing written, also when the caller is a shared member who may
    read the album. *)
Theorem update_and_share_owner_only (D : Driver) (user : User.t)
  (albumId : string) (album : Album.t) (db : Db)
  (Hfound : find (album_is albumId) (albums db) = Some album)
  (Hother : User.userId user <> Album.ownerId album) :
  (forall description,
      updateAlbum D user albumId description db =
      ({| status := 403; body := Error "Only the album owner can update it" |}, db)) /\
  (forall email emails,
      shareAlbum user albumId (Js.Arr (email :: emails)) db =
      ({| status := 403; body := Error "Only the album owner can share it" |}, db)).
Proof.
  apply not_eq_sym, String.eqb_neq in Hother. split.
  - intros description. unfold updateAlbum. handler.
    rewrite Hfound; cbn. now rewrite Hother.
  - intros email emails. unfold shareAlbum. handler.
    rewrite Hfound; cbn. now rewrite Hother.
Qed.

Lemma update_and_share_owner_only_witness :
  hasAccess bob trip = true /\
  updateAlbum strictDriver bob "a1" (Js.Str "mine") tripDb =
  ({| status := 403; body := Error "Only the album owner can update it" |}, tripDb) /\
  shareAlbum bob "a1" (Js.Arr ["carol@x.com"]) tripDb =
  ({| status := 403; body := Error "Only the album owner can share it" |}, tripDb).
Proof.
  split; [reflexivity|].
  destruct (update_and_share_owner_only strictDriver bob "a1" trip tripDb eq_refl)
    as [Hupdate Hshare]; [discriminate|].
  split; [apply Hupdate | apply Hshare].
Defined.

(** X8: a share call with a non-empty array is answered 404 when the
    album does not exist, and 400 when it comes from the owner but no
    address of the array is valid; the album keeps its shared members. *)
Theorem shareAlbum_missing_album_or_no_valid_email (owner : User.t)
  (albumId : string) (email : string) (emails : list string) (db : Db) :
  (find (album_is albumId) (albums db) = None ->
   shareAlbum owner albumId (Js.Arr (email :: emails)) db =
   ({| status := 404; body := Error "Album not found" |}, db)) /\
  (forall album,
      find (album_is albumId) (albums db) = Some album ->
      Album.ownerId album = User.userId owner ->
      (forall e, In e (email :: emails) -> Js.test emailRegex e = false) ->
      shareAlbum owner albumId (Js.Arr (email :: emails)) db =
      ({| status := 400; body := Error "No valid emails provided" |}, db)).
Proof.
  split.
  - intros Hnone. unfold shareAlbum. handler. now rewrite Hnone.
  - intros album Hfound Howner Hbad.
    assert (Hlen : (length (email :: emails) =? 0)%nat = false) by reflexivity.
    revert Hbad Hlen. generalize (email :: emails) as l. intros l Hbad Hlen.
    assert (Hnil : filter (Js.test emailRegex) l = []).
    { clear Hlen. induction l as [|e l IH]; [reflexivity|]. cbn.
      rewrite (Hbad e (or_introl eq_refl)). apply IH.
      intros x Hx. apply Hbad. now right. }
    unfold shareAlbum. handler. rewrite Hlen; cbn.
    rewrite Hfound; cbn. rewrite Howner, String.eqb_refl; cbn.
    rewrite Hnil. reflexivity.
Qed.

Lemma shareAlbum_missing_album_or_no_valid_email_witness :
  shareAlbum alice "a9" (Js.Arr ["bob@x.com"]) tripDb =
  ({| status := 404; body := Error "Album not found" |}, tripDb) /\
  shareAlbum alice "a1" (Js.Arr ["bob"; "bob@x"; "b ob@x.com"]) tripDb =
  ({| status := 400; body := Error "No valid emails provided" |}, tripDb).
Proof.
  split.
  - now apply (shareAlbum_missing_album_or_no_valid_email alice "a9" "bob@x.com" []
                 tripDb).
  - apply (shareAlbum_missing_album_or_no_valid_email alice "a1" "bob"
             ["bob@x"; "b ob@x.com"] tripDb) with (album := trip);
      [reflexivity | reflexivity |].
    intros e [<- | [<- | [<- | []]]]; reflexivity.
Defined.

(** ** Listings *)

Section SortDesc.
Context {A : Type}.
Variable key : A -> Z.

Lemma insertDesc_perm (x : A) (l : list A) :
  Permutation (insertDesc key x l) (x :: l).
Proof.
  induction l as [|y l IH]; cbn; [reflexivity|].
  destruct (key y <=? key x)%Z; [reflexivity|].
  rewrite IH. apply perm_swap.
Qed.

Lemma sortDesc_perm (l : list A) : Permutation (sortDesc key l) l.
Proof.
  induction l as [|x l IH]; cbn; [reflexivity|].
  rewrite insertDesc_perm. now constructor.
Qed.

Lemma sortDesc_In (l : list A) (x : A) : In x (sortDesc key l) <-> In x l.
Proof.
  split; apply Permutation_in; [|symmetry]; apply sortDesc_perm.
Qed.

Lemma insertDesc_sorted (x : A) (l : list A) :
  newestFirst key l -> newestFirst key (insertDesc key x l).
Proof.
  unfold newestFirst. induction 1 as [|y l Hl IH Hy]; cbn.
  - repeat constructor.
  - destruct (key y <=? key x)%Z eqn:Hle.
    + apply Z.leb_le in Hle. constructor; [now constructor|].
      constructor; [assumption|].
      rewrite Forall_forall in Hy |- *. intros z Hz.
      specialize (Hy z Hz). cbn in Hy. lia.
    + apply Z.leb_gt in Hle. constructor; [assumption|].
      rewrite Forall_forall in Hy |- *. intros z Hz.
      apply (Permutation_in _ (insertDesc_perm x l)) in Hz.
      destruct Hz as [<- | Hz]; [lia | now apply Hy].
Qed.

Lemma sortDesc_sorted (l : list A) : newestFirst key (sortDesc key l).
Proof.
  induction l as [|x l IH]; cbn; [constructor | now apply insertDesc_sorted].
Qed.
End SortDesc.

Lemma find_unique_album (l : list Album.t) (a : Album.t) :
  NoDup (map Album.albumId l) -> In a l ->
  find (album_is (Album.albumId a)) l = Some a.
Proof.
  induction l as [|x l IH]; cbn; intros Hnd Hin; [contradiction|].
  inversion Hnd as [|? ? Hnotin Hnd']; subst.
  destruct Hin as [-> | Hin].
  - unfold album_is at 1. now rewrite String.eqb_refl.
  - destruct (album_is (Album.albumId a) x) eqn:Hx; [|now apply IH].
    exfalso. apply Hnotin. apply album_is_iff in Hx. rewrite Hx.
    now apply in_map.
Qed.

(** X9: the album listing answers 200 with exactly the albums the
    caller may read (owner by [userId], or email in [sharedWith]), each
    once per document, newest first, and writes nothing; under the unique
    index every album it shows is the one a GET of its identifier
    returns. *)
Theorem listAlbums_readable_newest_first (user : User.t) (db : Db) :
  exists listed,
    listAlbums user db = (inr listed, db) /\
    (forall a, In a listed <-> In a (albums db) /\ hasAccess user a = true) /\
    Permutation listed (filter (hasAccess user) (albums db)) /\
    newestFirst Album.createdAt listed /\
    (NoDup (map Album.albumId (albums db)) ->
     forall a, In a listed ->
               getAlbum user (Album.albumId a) db =
               ({| status := 200; body := AlbumDoc a |}, db)).
Proof.
  eexists. split; [reflexivity|].
  assert (Hin : forall a,
             In a (sortDesc Album.createdAt
                     (filter (owned_or_shared (User.userId user) (User.email user))
                        (albums db))) <->
             In a (albums db) /\ hasAccess user a = true).
  { intros a. rewrite sortDesc_In, filter_In. reflexivity. }
  split; [exact Hin|]. split; [apply sortDesc_perm|].
  split; [apply sortDesc_sorted|].
  intros Hunique a Ha. apply Hin in Ha. destruct Ha as [Ha Hacc].
  unfold getAlbum. handler.
  rewrite (find_unique_album _ _ Hunique Ha); cbn. now rewrite Hacc.
Qed.

Lemma listAlbums_readable_newest_first_witness :
  NoDup (map Album.albumId (albums tripDb)) /\
  fst (listAlbums bob tripDb) = inr [trip] /\
  fst (listAlbums carol tripDb) = inr [] /\
  getAlbum bob "a1" tripDb = ({| status := 200; body := AlbumDoc trip |}, tripDb).
Proof.
  assert (Hunique : NoDup (map Album.albumId (albums tripDb))).
  { cbn. constructor; [intros [] | constructor]. }
  split; [exact Hunique|]. split; [reflexivity|]. split; [reflexivity|].
  destruct (listAlbums_readable_newest_first bob tripDb)
    as (listed & Hlist & Hin & _ & _ & Hget).
  apply (Hget Hunique trip). apply Hin. split; [now left | reflexivity].
Defined.

Lemma image_in_iff (albumId : string) (i : Image.t) :
  image_in albumId i = true <-> Image.albumId i = albumId.
Proof. apply String.eqb_eq. Qed.

Lemma listImages_query (user : User.t) (albumId : string) (album : Album.t)
  (tags : Js.Value) (wanted : option (list string)) (db : Db) :
  find (album_is albumId) (albums db) = Some album ->
  hasAccess user album = true ->
  tagArray tags db = Next wanted db ->
  listImages user albumId tags db =
  (inr (map ImageItem.project
          (sortDesc Image.uploadedAt
             (filter (in_album_tagged albumId wanted) (images db)))), db).
Proof.
  intros Hfound Haccess Htags.
  unfold listImages, try_catch_json, Image_find_sorted. handler.
  rewrite Hfound; cbn. rewrite Haccess; cbn. now rewrite Htags.
Qed.

(** X10: for a caller with access to an album that exists, the image
    listing answers 200, newest first and without writing, with the
    images of that album and of no other.  With a [tags] query it keeps
    the images that carry at least one of the comma-separated tags, each
    trimmed; a [tags] query that is not a string (a repeated parameter)
    is answered 500.  The favourites listing shows the images of the
    album whose flag is set. *)
Theorem listImages_of_album_by_tag (user : User.t) (albumId : string)
  (album : Album.t) (db : Db)
  (Hfound : find (album_is albumId) (albums db) = Some album)
  (Haccess : hasAccess user album = true) :
  (forall tags,
      Js.truthy tags = false ->
      exists listed,
        listImages user albumId tags db = (inr (map ImageItem.project listed), db) /\
        newestFirst Image.uploadedAt listed /\
        forall i, In i listed <-> In i (images db) /\ Image.albumId i = albumId) /\
  (forall s,
      s <> "" ->
      exists listed,
        listImages user albumId (Js.Str s) db
        = (inr (map ImageItem.project listed), db) /\
        newestFirst Image.uploadedAt listed /\
        forall i, In i listed <->
                  In i (images db) /\ Image.albumId i = albumId /\
                  exists tag, In tag (Image.tagList i) /\
                              In tag (map Js.trim (Js.split "," s))) /\
  (forall tags,
      Js.truthy tags = true -> Js.typeof_string tags = false ->
      listImages user albumId tags db =
      (inl {| status := 500; body := Error "Failed to fetch images" |}, db)) /\
  (exists listed,
      listFavorites user albumId db = (inr (map ImageItem.project listed), db) /\
      newestFirst Image.uploadedAt listed /\
      forall i, In i listed <->
                In i (images db) /\ Image.albumId i = albumId /\
                Image.isFavorite i = Some true).
Proof.
  split; [|split; [|split]].
  - intros tags Hfalsy. eexists. split.
    + apply (listImages_query user albumId album tags None db Hfound Haccess).
      unfold tagArray. now rewrite Hfalsy.
    + split; [apply sortDesc_sorted|].
      intros i. rewrite sortDesc_In, filter_In. unfold in_album_tagged.
      rewrite andb_true_r, image_in_iff. reflexivity.
  - intros s Hs. eexists. split.
    + apply (listImages_query user albumId album (Js.Str s)
               (Some (map Js.trim (Js.split "," s))) db Hfound Haccess).
      unfold tagArray. cbn. apply String.eqb_neq in Hs. now rewrite Hs.
    + split; [apply sortDesc_sorted|].
      intros i. rewrite sortDesc_In, filter_In. unfold in_album_tagged.
      rewrite andb_true_iff, image_in_iff, existsb_exists.
      split.
      * intros (Hin & Halb & tag & Htag & Hw). apply includes_In in Hw. eauto 6.
      * intros (Hin & Halb & tag & Htag & Hw). apply includes_In in Hw. eauto 6.
  - intros tags Htruthy Hstr.
    unfold listImages, try_catch_json, tagArray. handler.
    rewrite Hfound; cbn. rewrite Haccess; cbn. rewrite Htruthy.
    destruct tags; try discriminate; reflexivity.
  - eexists. split.
    + unfold listFavorites, try_catch_json, Image_find_sorted. handler.
      rewrite Hfound; cbn. rewrite Haccess; cbn. reflexivity.
    + split; [apply sortDesc_sorted|].
      intros i. rewrite sortDesc_In, filter_In. unfold favorite_in_album.
      rewrite andb_true_iff, image_in_iff.
      destruct (Image.isFavorite i) as [[|]|]; intuition congruence.
Qed.

Lemma listImages_of_album_by_tag_witness :
  fst (listImages bob "a1" (Js.Str " sunset ,night") tripDb)
  = inr [ImageItem.project sunset] /\
  fst (listImages bob "a1" Js.Undefined tripDb)
  = inr [ImageItem.project beach; ImageItem.project sunset] /\
  listImages bob "a1" (Js.Arr ["sunset"; "night"]) tripDb
  = (inl {| status := 500; body := Error "Failed to fetch images" |}, tripDb) /\
  fst (listFavorites bob "a1" tripDb) = inr [ImageItem.project beach].
Proof.
  destruct (listImages_of_album_by_tag bob "a1" trip tripDb eq_refl eq_refl)
    as (_ & _ & Hbad & _).
  split; [reflexivity|]. split; [reflexivity|]. split; [|reflexivity].
  now apply Hbad.
Defined.

(** X11: the two image listings are guarded like the other image
    routes: 404 when the album does not exist, 403 for a caller who is
    neither its owner nor a shared member; nothing is written. *)
Theorem listings_refuse_without_access (user : User.t) (albumId : string)
  (tags : Js.Value) (db : Db) :
  (find (album_is albumId) (albums db) = None ->
   listImages user albumId tags db =
   (inl {| status := 404; body := Error "Album not found" |}, db) /\
   listFavorites user albumId db =
   (inl {| status := 404; body := Error "Album not found" |}, db)) /\
  (forall album,
      find (album_is albumId) (albums db) = Some album ->
      User.userId user <> Album.ownerId album ->
      ~ In (User.email user) (Album.sharedWith album) ->
      listImages user albumId tags db =
      (inl {| status := 403; body := Error "You do not have access to this album" |},
       db) /\
      listFavorites user albumId db =
      (inl {| status := 403; body := Error "You do not have access to this album" |},
       db)).
Proof.
  split.
  - intros Hnone. unfold listImages, listFavorites, try_catch_json. handler.
    now rewrite Hnone.
  - intros album Hfound Hown Hshared.
    assert (Hno : hasAccess user album = false).
    { destruct (hasAccess user album) eqn:E; [|reflexivity].
      apply hasAccess_iff in E. tauto. }
    unfold listImages, listFavorites, try_catch_json. handler.
    rewrite Hfound; cbn. now rewrite Hno.
Qed.

Lemma listings_refuse_without_access_witness :
  listImages carol "a1" Js.Undefined tripDb =
  (inl {| status := 403; body := Error "You do not have access to this album" |},
   tripDb) /\
  listFavorites carol "a9" tripDb =
  (inl {| status := 404; body := Error "Album not found" |}, tripDb).
Proof.
  destruct (listings_refuse_without_access carol "a1" Js.Undefined tripDb)
    as [_ Hforbidden].
  destruct (listings_refuse_without_access carol "a9" Js.Undefined tripDb)
    as [Hmissing _].
  split.
  - apply (Hforbidden trip eq_refl); [discriminate|].
    cbn. intros [H | []]. discriminate.
  - now apply Hmissing.
Defined.

(** ** Uploads *)

(** X12: an upload without a file is answered 400 before anything else
    is looked at; with a file, a missing album is answered 404; when the
    media host rejects the upload the answer is 500 and no image is
    stored; and an upload whose identifier is taken is never answered
    201 and stores nothing. *)
Theorem uploadImage_failures_store_nothing (D : Driver) (user : User.t)
  (uuidv4 : string) (now : Z) (albumId : string)
  (tags person isFavorite : Js.Value) (db : Db) :
  (forall gateway,
      uploadImage D user uuidv4 now albumId None gateway tags person isFavorite db =
      ({| status := 400; body := Error "No file uploaded" |}, db)) /\
  (forall file gateway,
      find (album_is albumId) (albums db) = None ->
      uploadImage D user uuidv4 now albumId (Some file) gateway
        tags person isFavorite db =
      ({| status := 404; body := Error "Album not found" |}, db)) /\
  (forall file album,
      find (album_is albumId) (albums db) = Some album ->
      hasAccess user album = true ->
      uploadImage D user uuidv4 now albumId (Some file) None
        tags person isFavorite db =
      ({| status := 500;
          body := ErrorMessageOr UploadError "Failed to upload image" |}, db)) /\
  (forall file gateway,
      existsb (image_is uuidv4) (images db) = true ->
      status (fst (uploadImage D user uuidv4 now albumId file gateway
                     tags person isFavorite db)) <> 201 /\
      snd (uploadImage D user uuidv4 now albumId file gateway
             tags person isFavorite db) = db).
Proof.
  split; [|split; [|split]].
  - intros gateway. reflexivity.
  - intros file gateway Hnone. unfold uploadImage. handler. now rewrite Hnone.
  - intros file album Hfound Haccess. unfold uploadImage, uploadToCloudinary.
    handler. rewrite Hfound; cbn. now rewrite Haccess.
  - intros file gateway Htaken.
    unfold uploadImage, uploadToCloudinary, Image_insert. handler.
    repeat (split_match; cbn); try (split; [discriminate | reflexivity]).
    cbn in *. congruence.
Qed.

Lemma uploadImage_failures_store_nothing_witness :
  uploadImage strictDriver bob "i3" 50 "a1" (Some photo) None
    Js.Undefined Js.Undefined Js.Undefined tripDb =
  ({| status := 500;
      body := ErrorMessageOr UploadError "Failed to upload image" |}, tripDb) /\
  snd (uploadImage strictDriver bob "i1" 50 "a1" (Some photo) (Some stored)
         Js.Undefined Js.Undefined Js.Undefined tripDb) = tripDb.
Proof.
  destruct (uploadImage_failures_store_nothing strictDriver bob "i3" 50 "a1"
              Js.Undefined Js.Undefined Js.Undefined tripDb) as (_ & _ & Hhost & _).
  destruct (uploadImage_failures_store_nothing strictDriver bob "i1" 50 "a1"
              Js.Undefined Js.Undefined Js.Undefined tripDb) as (_ & _ & _ & Htaken).
  split.
  - now apply (Hhost photo trip).
  - now apply (Htaken (Some photo) (Some stored)).
Defined.

(** X13: after an upload answered 201 the image is the last document of
    the collection; it belongs to the album, has the caller as uploader,
    no comment, the favourite flag only for the field values "true" and
    true, and the URL route returns the URL and the name the upload
    stored, to the uploader and to every caller with access. *)
Theorem uploadImage_then_getImageUrl (D : Driver) (user : User.t)
  (uuidv4 : string) (now : Z) (albumId : string)
  (file : option File) (gateway : option UploadResult)
  (tags person isFavorite : Js.Value) (db : Db) :
  let db' := snd (uploadImage D user uuidv4 now albumId file gateway
                    tags person isFavorite db) in
  status (fst (uploadImage D user uuidv4 now albumId file gateway
                 tags person isFavorite db)) = 201 ->
  exists image sent uploaded album,
    file = Some sent /\ gateway = Some uploaded /\
    find (album_is albumId) (albums db) = Some album /\
    images db' = images db ++ [image] /\ albums db' = albums db /\
    Image.imageId image = uuidv4 /\ Image.albumId image = albumId /\
    Image.uploadedBy image = User.userId user /\
    Image.comments image = [] /\
    Image.isFavorite image = Some (isTrue isFavorite) /\
    Image.uploadedAt image = now /\
    forall reader,
      hasAccess reader album = true ->
      getImageUrl reader albumId uuidv4 db' =
      ({| status := 200;
          body := ImageUrl (secure_url uploaded) uuidv4 (originalname sent) |}, db').
Proof.
  intros db'. subst db'.
  unfold uploadImage, uploadToCloudinary, Image_insert. handler.
  destruct file as [sent|]; cbn; [|discriminate].
  destruct (find (album_is albumId) (albums db)) as [album|] eqn:Hfound; cbn;
    [|discriminate].
  destruct (hasAccess user album) eqn:Haccess; cbn; [|discriminate].
  destruct gateway as [uploaded|]; cbn; [|discriminate].
  destruct (castStringArray D (parsedTags D tags)) as [tags'|]; cbn; [|discriminate].
  destruct (castString D (Js.or person (Js.Str ""))) as [person'|]; cbn;
    [|discriminate].
  match goal with
  | |- context [ImageSchema_required ?i] =>
      set (image := i); destruct (ImageSchema_required image); cbn; [|discriminate]
  end.
  destruct (existsb (image_is uuidv4) (images db)) eqn:Hfresh; cbn; [discriminate|].
  intros _. exists image, sent, uploaded, album.
  repeat (split; [reflexivity|]).
  intros reader Hreader.
  assert (Hfind : find (image_at uuidv4 albumId) (images db ++ [image]) = Some image).
  { apply find_first.
    - intros z Hz. unfold image_at. destruct (image_is uuidv4 z) eqn:Hzid;
        [|reflexivity].
      assert (existsb (image_is uuidv4) (images db) = true)
        by (apply existsb_exists; eauto).
      congruence.
    - unfold image_at, image_is, image_in. cbn. now rewrite !String.eqb_refl. }
  rewrite <- (app_nil_r [image]) in Hfind.
  unfold getImageUrl. handler. cbn in Hfound. rewrite Hfound; cbn.
  rewrite Hreader; cbn. rewrite app_nil_r in Hfind. now rewrite Hfind.
Qed.

Lemma uploadImage_then_getImageUrl_witness :
  status (fst (uploadImage strictDriver bob "i3" 50 "a1" (Some photo) (Some stored)
                 Js.Undefined Js.Undefined (Js.Str "yes") tripDb)) = 201 /\
  getImageUrl alice "a1" "i3"
    (snd (uploadImage strictDriver bob "i3" 50 "a1" (Some photo) (Some stored)
            Js.Undefined Js.Undefined (Js.Str "yes") tripDb)) =
  ({| status := 200; body := ImageUrl "https://cdn/i3" "i3" "hill.png" |},
   snd (uploadImage strictDriver bob "i3" 50 "a1" (Some photo) (Some stored)
          Js.Undefined Js.Undefined (Js.Str "yes") tripDb)).
Proof.
  split; [reflexivity|].
  destruct (uploadImage_then_getImageUrl strictDriver bob "i3" 50 "a1" (Some photo)
              (Some stored) Js.Undefined Js.Undefined (Js.Str "yes") tripDb eq_refl)
    as (image & sent & uploaded & album & [= <-] & [= <-] & [= <-] & _ & _ & _ & _
        & _ & _ & _ & _ & Hurl).
  now apply Hurl.
Defined.

(** ** Comments and favourites *)

(** X14: a comment that is truthy but not a string (a number, [true],
    an array, an object) has no [trim]: the call is answered 500, not
    400, whatever the album and the image, and nothing is written. *)
Theorem addComment_not_a_string (user : User.t) (now : Z)
  (albumId imageId : string) (comment : Js.Value) (db : Db) :
  Js.truthy comment = true -> Js.typeof_string comment = false ->
  addComment user now albumId imageId comment db =
  ({| status := 500; body := Error "Failed to add comment" |}, db).
Proof.
  intros Htruthy Hstr. unfold addComment, emptyComment, String_trim. handler.
  rewrite Htruthy. destruct comment; try discriminate; reflexivity.
Qed.

Lemma addComment_not_a_string_witness :
  addComment bob 40 "a1" "i1" (Js.Num 7) tripDb =
  ({| status := 500; body := Error "Failed to add comment" |}, tripDb) /\
  addComment bob 40 "a1" "i1" (Js.Arr ["nice"]) tripDb =
  ({| status := 500; body := Error "Failed to add comment" |}, tripDb).
Proof.
  split.
  - now apply (addComment_not_a_string bob 40 "a1" "i1" (Js.Num 7) tripDb).
  - now apply (addComment_not_a_string bob 40 "a1" "i1" (Js.Arr ["nice"]) tripDb).
Defined.

Lemma setFavorite_twice (D : Driver) (user : User.t) (albumId imageId : string)
  (album : Album.t) (image : Image.t) (db : Db) (v : Js.Value)
  (b1 : option bool) (b2 : bool) :
  find (album_is albumId) (albums db) = Some album ->
  hasAccess user album = true ->
  find (image_at imageId albumId) (images db) = Some image ->
  (if Js.defined v then castBoolean D v
   else Some (Some (notFlag (Image.isFavorite image)))) = Some b1 ->
  setFavorite D user albumId imageId (Js.Bool b2)
    (snd (setFavorite D user albumId imageId v db))
  = setFavorite D user albumId imageId (Js.Bool b2) db.
Proof.
  intros Halbum Haccess Himage Hcast.
  destruct (find_split _ _ _ Himage) as (before & after & Hsplit & Hp & Hbefore).
  rewrite (setFavorite_found D user albumId imageId album image db v b1
             Halbum Haccess Himage Hcast). cbn [snd].
  set (image1 := Image.set_isFavorite b1 image).
  assert (Hp1 : image_at imageId albumId image1 = true) by exact Hp.
  rewrite (setFavorite_found D user albumId imageId album image1 _ (Js.Bool b2)
             (Some b2));
    [| exact Halbum | exact Haccess
     | cbn [set_images images]; rewrite Hsplit,
         (replaceFirst_first _ _ _ _ _ Hbefore Hp); now apply find_first
     | apply castBoolean_Bool].
  rewrite (setFavorite_found D user albumId imageId album image db (Js.Bool b2)
             (Some b2) Halbum Haccess Himage (castBoolean_Bool D b2)).
  cbn [set_images images albums]. rewrite Hsplit.
  rewrite !(replaceFirst_first _ _ _ _ _ Hbefore Hp).
  rewrite (replaceFirst_first _ _ _ _ _ Hbefore Hp1).
  subst image1. now destruct image.
Qed.

(** X15: for an image that is found by a caller with access, a
    favourite call with a boolean overrides whatever call came before:
    after an earlier call with a boolean or with no value, it answers
    and stores what it would have answered and stored alone.  Setting a
    value is therefore idempotent. *)
Theorem setFavorite_last_value_wins (D : Driver) (user : User.t)
  (albumId imageId : string) (album : Album.t) (image : Image.t) (db : Db)
  (Halbum : find (album_is albumId) (albums db) = Some album)
  (Haccess : hasAccess user album = true)
  (Himage : find (image_at imageId albumId) (images db) = Some image) :
  forall b,
    (forall earlier,
        setFavorite D user albumId imageId (Js.Bool b)
          (snd (setFavorite D user albumId imageId (Js.Bool earlier) db))
        = setFavorite D user albumId imageId (Js.Bool b) db) /\
    setFavorite D user albumId imageId (Js.Bool b)
      (snd (setFavorite D user albumId imageId Js.Undefined db))
    = setFavorite D user albumId imageId (Js.Bool b) db.
Proof.
  intros b. split.
  - intros earlier.
    apply (setFavorite_twice D user albumId imageId album image db
             (Js.Bool earlier) (Some earlier) b Halbum Haccess Himage).
    apply castBoolean_Bool.
  - now apply (setFavorite_twice D user albumId imageId album image db
                 Js.Undefined (Some (notFlag (Image.isFavorite image))) b
                 Halbum Haccess Himage).
Qed.

Lemma setFavorite_last_value_wins_witness :
  setFavorite strictDriver bob "a1" "i1" (Js.Bool true)
    (snd (setFavorite strictDriver bob "a1" "i1" (Js.Bool true) tripDb))
  = setFavorite strictDriver bob "a1" "i1" (Js.Bool true) tripDb.
Proof.
  now apply (setFavorite_last_value_wins strictDriver bob "a1" "i1" trip sunset
               tripDb eq_refl eq_refl eq_refl true).
Defined.

(** X16: two comments on an image, by callers with access, are stored
    after the comments the image had, in the order of the calls, each
    with its own author and time; the second call answers the whole
    list. *)
Theorem addComment_twice_in_order (first second : User.t) (t1 t2 : Z)
  (albumId imageId : string) (album : Album.t) (image : Image.t) (db : Db)
  (text1 text2 : string)
  (Halbum : find (album_is albumId) (albums db) = Some album)
  (Haccess1 : hasAccess first album = true)
  (Haccess2 : hasAccess second album = true)
  (Himage : find (image_at imageId albumId) (images db) = Some image)
  (Htext1 : Js.trim text1 <> "")
  (Htext2 : Js.trim text2 <> "") :
  let c1 := {| Comment.userId := User.userId first;
               Comment.userEmail := User.email first;
               Comment.comment := Js.trim text1; Comment.createdAt := t1 |} in
  let c2 := {| Comment.userId := User.userId second;
               Comment.userEmail := User.email second;
               Comment.comment := Js.trim text2; Comment.createdAt := t2 |} in
  let db1 := snd (addComment first t1 albumId imageId (Js.Str text1) db) in
  let db2 := snd (addComment second t2 albumId imageId (Js.Str text2) db1) in
  fst (addComment second t2 albumId imageId (Js.Str text2) db1) =
  {| status := 200;
     body := CommentAdded "Comment added successfully"
               (Image.comments image ++ [c1; c2]) |} /\
  find (image_at imageId albumId) (images db2)
  = Some (Image.set_comments (Image.comments image ++ [c1; c2]) image).
Proof.
  intros c1 c2 db1 db2. subst db2 db1.
  destruct (find_split _ _ _ Himage) as (before & after & Hsplit & Hp & Hbefore).
  rewrite (addComment_found first t1 albumId imageId album image db text1
             Halbum Haccess1 Himage Htext1). cbn [snd].
  fold c1. set (image1 := Image.set_comments (Image.comments image ++ [c1]) image).
  assert (Hp1 : image_at imageId albumId image1 = true) by exact Hp.
  assert (Hdb1 : replaceFirst (image_at imageId albumId) image1 (images db)
                 = before ++ image1 :: after).
  { rewrite Hsplit at 1. now apply replaceFirst_first. }
  rewrite Hdb1.
  rewrite (addComment_found second t2 albumId imageId album image1
             (set_images (before ++ image1 :: after) db) text2);
    [| exact Halbum | exact Haccess2
     | cbn [set_images images]; now apply find_first | exact Htext2].
  fold c2. cbn [fst snd set_images images].
  rewrite (replaceFirst_first _ _ _ _ _ Hbefore Hp1).
  subst image1. cbn [Image.set_comments Image.comments].
  rewrite <- app_assoc. cbn [app]. split; [reflexivity|].
  apply find_first; [assumption|]. exact Hp.
Qed.

Lemma addComment_twice_in_order_witness :
  exists c1 c2,
    find (image_at "i2" "a1")
      (images (snd (addComment bob 41 "a1" "i2" (Js.Str "again")
                      (snd (addComment alice 40 "a1" "i2" (Js.Str " hi ") tripDb)))))
    = Some (Image.set_comments [c1; c2] beach) /\
    Comment.userId c1 = "u-alice" /\ Comment.userId c2 = "u-bob".
Proof.
  eexists _, _. split.
  - apply (addComment_twice_in_order alice bob 40 41 "a1" "i2" trip beach tripDb
             " hi " "again" eq_refl eq_refl eq_refl eq_refl); discriminate.
  - split; reflexivity.
Defined.

(** ** What no call undoes *)

Lemma find_replaceFirst_other {A : Type} (p q : A -> bool) (y : A) (l : list A) :
  (forall x, q x = true -> p x = false) -> p y = false ->
  find p (replaceFirst q y l) = find p l.
Proof.
  intros Hq Hy. induction l as [|x l IH]; cbn; [reflexivity|].
  destruct (q x) eqn:Hx; cbn.
  - now rewrite Hy, (Hq x Hx).
  - now rewrite IH.
Qed.

Lemma find_removeFirst_other {A : Type} (p q : A -> bool) (l : list A) :
  (forall x, q x = true -> p x = false) ->
  find p (removeFirst q l) = find p l.
Proof.
  intros Hq. induction l as [|x l IH]; cbn; [reflexivity|].
  destruct (q x) eqn:Hx; cbn.
  - now rewrite (Hq x Hx).
  - now rewrite IH.
Qed.

Lemma find_app_found {A : Type} (p : A -> bool) (l l' : list A) (x : A) :
  find p l = Some x -> find p (l ++ l') = Some x.
Proof.
  induction l as [|a l IH]; cbn; [discriminate|].
  destruct (p a); [auto | exact IH].
Qed.

Lemma album_is_other (id id' : string) (x : Album.t) :
  id <> id' -> album_is id' x = true -> album_is id x = false.
Proof.
  intros Hne Hx. apply album_is_iff in Hx. unfold album_is.
  apply String.eqb_neq. congruence.
Qed.

(** Two versions of an album: same identity and owner, the shared
    members of the first still in the second, in place. *)
Lemma albums_change_keeps (l l' : list Album.t) (albumId : string) (a : Album.t) :
  albums_change l l' ->
  NoDup (map Album.albumId l) ->
  find (album_is albumId) l = Some a ->
  find (album_is albumId) l' = None \/
  exists a',
    find (album_is albumId) l' = Some a' /\
    Album.albumId a' = Album.albumId a /\
    Album.name a' = Album.name a /\
    Album.ownerId a' = Album.ownerId a /\
    Album.ownerEmail a' = Album.ownerEmail a /\
    Album.createdAt a' = Album.createdAt a /\
    exists added, Album.sharedWith a' = Album.sharedWith a ++ added.
Proof.
  intros Hc Hunique Hfound.
  assert (Hsame : exists a',
             Some a = Some a' /\
             Album.albumId a' = Album.albumId a /\
             Album.name a' = Album.name a /\
             Album.ownerId a' = Album.ownerId a /\
             Album.ownerEmail a' = Album.ownerEmail a /\
             Album.createdAt a' = Album.createdAt a /\
             exists added, Album.sharedWith a' = Album.sharedWith a ++ added).
  { exists a. repeat (split; [reflexivity|]). exists []. now rewrite app_nil_r. }
  destruct (found_album _ _ _ Hfound) as [Hin Hid].
  assert (Hedit : forall a0 a1,
             In a0 l -> Album.albumId a1 = Album.albumId a0 ->
             (a0 = a -> Album.name a1 = Album.name a /\
                        Album.ownerId a1 = Album.ownerId a /\
                        Album.ownerEmail a1 = Album.ownerEmail a /\
                        Album.createdAt a1 = Album.createdAt a /\
                        exists added,
                          Album.sharedWith a1 = Album.sharedWith a ++ added) ->
             exists a',
               find (album_is albumId)
                 (replaceFirst (album_is (Album.albumId a0)) a1 l) = Some a' /\
               Album.albumId a' = Album.albumId a /\
               Album.name a' = Album.name a /\
               Album.ownerId a' = Album.ownerId a /\
               Album.ownerEmail a' = Album.ownerEmail a /\
               Album.createdAt a' = Album.createdAt a /\
               exists added, Album.sharedWith a' = Album.sharedWith a ++ added).
  { intros a0 a1 Hin0 Hid1 Hfields.
    destruct (string_dec (Album.albumId a0) albumId) as [Heq | Hne].
    - assert (Ha0 : a0 = a).
      { pose proof (find_unique_album l a0 Hunique Hin0) as H0.
        rewrite Heq, Hfound in H0. congruence. }
      subst a0. destruct (Hfields eq_refl) as (Hn & Ho & He & Hc' & Hs).
      exists a1. rewrite Heq.
      destruct (find_split _ _ _ Hfound) as (before & after & -> & Hp & Hbefore).
      rewrite (replaceFirst_first _ _ _ _ _ Hbefore Hp).
      split; [apply find_first; [assumption|]; apply album_is_iff; congruence|].
      split; [congruence|]. repeat (split; [assumption|]). exact Hs.
    - rewrite find_replaceFirst_other.
      + destruct Hsame as (a' & [= <-] & Hrest). exists a. auto.
      + intros x Hx. now apply (album_is_other albumId (Album.albumId a0)); auto.
      + apply String.eqb_neq. congruence. }
  destruct Hc as [|x _ _|a0 d Hin0|a0 valid Hin0|gone].
  - right. destruct Hsame as (a' & [= <-] & Hrest). exists a. auto.
  - right. destruct Hsame as (a' & [= <-] & Hrest). exists a.
    split; [now apply find_app_found | assumption].
  - right. apply Hedit; [assumption | reflexivity|].
    intros ->. repeat (split; [reflexivity|]). exists []. now rewrite app_nil_r.
  - right. apply Hedit; [assumption | reflexivity|].
    intros ->. repeat (split; [reflexivity|]). apply share_extends.
  - destruct (string_dec gone albumId) as [-> | Hne].
    + left. now apply removeFirst_unique.
    + right. rewrite find_removeFirst_other.
      * destruct Hsame as (a' & [= <-] & Hrest). exists a. auto.
      * intros x Hx. now apply (album_is_other albumId gone); auto.
Qed.

(** X17: whatever call is served, an album of the database is either
    deleted or still found under its identifier with the same name,
    owner ([ownerId], [ownerEmail]) and creation time, and with every
    shared member it had, in the same order: no route removes a member
    or hands an album over. *)
Theorem album_owner_fixed_members_kept (D : Driver) (req : Request) (c : Call)
  (db : Db) (albumId : string) (album : Album.t)
  (Hunique : NoDup (map Album.albumId (albums db)))
  (Hfound : find (album_is albumId) (albums db) = Some album) :
  let db' := snd (serve D req c db) in
  find (album_is albumId) (albums db') = None \/
  exists album',
    find (album_is albumId) (albums db') = Some album' /\
    Album.albumId album' = Album.albumId album /\
    Album.name album' = Album.name album /\
    Album.ownerId album' = Album.ownerId album /\
    Album.ownerEmail album' = Album.ownerEmail album /\
    Album.createdAt album' = Album.createdAt album /\
    exists added, Album.sharedWith album' = Album.sharedWith album ++ added.
Proof.
  intros db'. subst db'.
  exact (albums_change_keeps _ _ albumId album (serve_albums D req c db)
           Hunique Hfound).
Qed.

Lemma album_owner_fixed_members_kept_witness :
  NoDup (map Album.albumId (albums tripDb)) /\
  exists album',
    find (album_is "a1")
      (albums (snd (serve strictDriver (withCookie "alice.jwt")
                      (ShareAlbum "a1" (Js.Arr ["carol@x.com"])) tripDb)))
    = Some album' /\
    Album.ownerId album' = "u-alice" /\
    exists added, Album.sharedWith album' = ["bob@x.com"] ++ added.
Proof.
  assert (Hunique : NoDup (map Album.albumId (albums tripDb))).
  { cbn. constructor; [intros [] | constructor]. }
  split; [exact Hunique|].
  destruct (album_owner_fixed_members_kept strictDriver (withCookie "alice.jwt")
              (ShareAlbum "a1" (Js.Arr ["carol@x.com"])) tripDb "a1" trip
              Hunique eq_refl) as [Hgone | (album' & Hfind & _ & _ & Hown & _ & _ & Hs)].
  - cbn in Hgone. discriminate.
  - exists album'. auto.
Defined.

(** X18: in every database the server can reach, no two albums share an
    [albumId] and no two images share an [imageId]: a create or an
    upload whose identifier is in use stores nothing, and no route
    changes an identifier. *)
Theorem reachable_identifiers_unique (D : Driver) (db : Db) :
  reachable D db ->
  NoDup (map Album.albumId (albums db)) /\ NoDup (map Image.imageId (images db)).
Proof.
  intros H. split;
    [now apply (reachable_unique_albumId D) | now apply (reachable_unique_imageId D)].
Qed.

Lemma reachable_identifiers_unique_witness :
  reachable strictDriver
    (serveAll strictDriver
       [(withCookie "carol.jwt", CreateAlbum "a1" 70 (Js.Str "Copy") Js.Undefined)]
       tripDb) /\
  NoDup (map Album.albumId
           (albums (serveAll strictDriver
                      [(withCookie "carol.jwt",
                        CreateAlbum "a1" 70 (Js.Str "Copy") Js.Undefined)]
                      tripDb))).
Proof.
  assert (H : reachable strictDriver
                (serveAll strictDriver
                   [(withCookie "carol.jwt",
                     CreateAlbum "a1" 70 (Js.Str "Copy") Js.Undefined)]
                   tripDb)).
  { apply reachable_serveAll.
    exact (reachable_serveAll strictDriver tripCalls emptyDb (reachable_start _)). }
  split; [exact H|].
  exact (proj1 (reachable_identifiers_unique strictDriver _ H)).
Defined.

(** X19: under the unique index on [imageId], a deletion granted to the
    album owner or the uploader removes the image that was found, and
    nothing else: every other image keeps its place, and the URL route
    then answers 404 for the deleted image, whoever asks. *)
Theorem deleteImage_then_not_found (user : User.t) (destroyed : bool)
  (albumId imageId : string) (album : Album.t) (image : Image.t) (db : Db)
  (Hunique : NoDup (map Image.imageId (images db)))
  (Halbum : find (album_is albumId) (albums db) = Some album)
  (Himage : find (image_at imageId albumId) (images db) = Some image)
  (Hcan : canDelete user album image = true) :
  let db' := snd (deleteImage user destroyed albumId imageId db) in
  (exists before after,
      images db = before ++ image :: after /\ images db' = before ++ after) /\
  albums db' = albums db /\
  find (image_at imageId albumId) (images db') = None /\
  forall reader,
    hasAccess reader album = true ->
    getImageUrl reader albumId imageId db' =
    ({| status := 404; body := Error "Image not found" |}, db').
Proof.
  intros db'. subst db'.
  destruct (deleteImage_removes_found user destroyed albumId imageId album image db
              Hunique Halbum Himage Hcan) as (before & after & Hsplit & Hdb').
  rewrite Hdb'. cbn [set_images images albums].
  destruct (found_image _ _ _ _ Himage) as (_ & Hid & _).
  assert (Hgone : find (image_at imageId albumId) (before ++ after) = None).
  { apply find_none_iff. intros z Hz.
    unfold image_at. destruct (image_is imageId z) eqn:Hzid; [|reflexivity].
    exfalso. apply String.eqb_eq in Hzid.
    rewrite Hsplit, map_app in Hunique. cbn in Hunique.
    apply NoDup_remove_2 in Hunique. apply Hunique.
    rewrite <- map_app, Hid, <- Hzid. now apply in_map. }
  split; [now exists before, after|]. split; [reflexivity|].
  split; [exact Hgone|].
  intros reader Hreader. unfold getImageUrl. handler.
  rewrite Halbum; cbn. rewrite Hreader; cbn. now rewrite Hgone.
Qed.

Lemma deleteImage_then_not_found_witness :
  NoDup (map Image.imageId (images tripDb)) /\
  images (snd (deleteImage bob false "a1" "i1" tripDb)) = [beach] /\
  getImageUrl alice "a1" "i1" (snd (deleteImage bob false "a1" "i1" tripDb)) =
  ({| status := 404; body := Error "Image not found" |},
   snd (deleteImage bob false "a1" "i1" tripDb)).
Proof.
  assert (Hunique : NoDup (map Image.imageId (images tripDb))).
  { cbn. repeat constructor; cbn; [intros [H | []]; discriminate | intros []]. }
  split; [exact Hunique|]. split; [reflexivity|].
  destruct (deleteImage_then_not_found bob false "a1" "i1" trip sunset tripDb
              Hunique eq_refl eq_refl eq_refl) as (_ & _ & _ & Hurl).
  now apply Hurl.
Defined.

Lemma route_images_evolve (D : Driver) (user : User.t) (c : Call) (db : Db) :
  images_evolve (images db) (images (snd (route D user c db))).
Proof.
  destruct c; cbn [route].
  - unfold createAlbum, Album_insert. handler.
    repeat (split_match; cbn); apply evolve_kept.
  - unfold getAlbum. handler. repeat (split_match; cbn); apply evolve_kept.
  - unfold updateAlbum. handler. repeat (split_match; cbn); apply evolve_kept.
  - unfold shareAlbum. handler. repeat (split_match; cbn); apply evolve_kept.
  - unfold deleteAlbum. handler.
    repeat (split_match; cbn); try apply evolve_kept. apply evolve_purged.
  - unfold uploadImage, uploadToCloudinary, Image_insert. handler.
    repeat (split_match; cbn); try apply evolve_kept. apply evolve_added.
  - unfold setFavorite. handler.
    destruct (find (album_is albumId) (albums db)) as [a|]; cbn;
      [|apply evolve_kept].
    destruct (negb (hasAccess user a)); cbn; [apply evolve_kept|].
    destruct (find (image_at imageId albumId) (images db)) as [i|] eqn:Hfound; cbn;
      [|apply evolve_kept].
    destruct (found_image _ _ _ _ Hfound) as (_ & Hid & Hin).
    repeat (split_match; cbn); try apply evolve_kept;
      rewrite Hid, Hin; now apply evolve_flagged.
  - unfold addComment, emptyComment, String_trim. handler.
    destruct comment; cbn; try apply evolve_kept.
    + destruct b; cbn; apply evolve_kept.
    + destruct (n =? 0)%Z; cbn; apply evolve_kept.
    + destruct (s =? ""); cbn; [apply evolve_kept|].
      destruct (Js.trim s =? ""); cbn; [apply evolve_kept|].
      destruct (find (album_is albumId) (albums db)) as [a|]; cbn;
        [|apply evolve_kept].
      destruct (negb (hasAccess user a)); cbn; [apply evolve_kept|].
      destruct (find (image_at imageId albumId) (images db)) as [i|] eqn:Hfound;
        cbn; [|apply evolve_kept].
      destruct (found_image _ _ _ _ Hfound) as (_ & Hid & Hin).
      rewrite Hid, Hin. now apply evolve_commented.
  - unfold deleteImage, logged, cloudinary_destroy. handler.
    repeat (split_match; cbn); try apply evolve_kept; apply evolve_removed.
  - unfold getImageUrl. handler. repeat (split_match; cbn); apply evolve_kept.
Qed.

Lemma image_later_refl (i : Image.t) : image_later i i.
Proof.
  unfold image_later. repeat (split; [reflexivity|]).
  exists []. now rewrite app_nil_r.
Qed.

Lemma image_at_other (imageId albumId imageId' albumId' : string) (x y : Image.t) :
  Image.imageId y = Image.imageId x -> Image.albumId y = Image.albumId x ->
  image_at imageId' albumId' x = true ->
  image_at imageId albumId y = true ->
  imageId = imageId' /\ albumId = albumId'.
Proof.
  unfold image_at, image_is, image_in. intros Hi Ha Hx Hy.
  apply andb_true_iff in Hx, Hy. destruct Hx as [H1 H2], Hy as [H3 H4].
  apply String.eqb_eq in H1, H2, H3, H4. split; congruence.
Qed.

Lemma find_filter_kept {A : Type} (p f : A -> bool) (l : list A) :
  (forall x, p x = true -> f x = true) -> find p (filter f l) = find p l.
Proof.
  intros H. induction l as [|x l IH]; cbn; [reflexivity|].
  destruct (f x) eqn:Hf; cbn.
  - now rewrite IH.
  - destruct (p x) eqn:Hp; [|exact IH]. rewrite (H x Hp) in Hf. discriminate.
Qed.

Lemma images_evolve_keeps (l l' : list Image.t) (imageId albumId : string)
  (i : Image.t) :
  images_evolve l l' ->
  NoDup (map Image.imageId l) ->
  find (image_at imageId albumId) l = Some i ->
  find (image_at imageId albumId) l' = None \/
  exists i', find (image_at imageId albumId) l' = Some i' /\ image_later i i'.
Proof.
  intros Hc Hunique Hfound.
  destruct (found_image _ _ _ _ Hfound) as (Hin & Hid & Halb).
  assert (Hstay : forall m, find (image_at imageId albumId) m = Some i ->
                            exists i', find (image_at imageId albumId) m = Some i' /\
                                       image_later i i').
  { intros m Hm. exists i. split; [assumption | apply image_later_refl]. }
  assert (Hedit : forall id0 alb0 i0 i1,
             find (image_at id0 alb0) l = Some i0 ->
             Image.imageId i1 = Image.imageId i0 ->
             Image.albumId i1 = Image.albumId i0 ->
             image_later i0 i1 ->
             exists i',
               find (image_at imageId albumId) (replaceFirst (image_at id0 alb0) i1 l)
               = Some i' /\ image_later i i').
  { intros id0 alb0 i0 i1 Hfound0 Hid1 Halb1 Hlater.
    destruct (found_image _ _ _ _ Hfound0) as (_ & Hid0 & Halb0).
    destruct (string_dec id0 imageId) as [-> | Hne];
      [destruct (string_dec alb0 albumId) as [-> | Hne]|].
    - assert (i0 = i) by congruence. subst i0. exists i1.
      destruct (find_split _ _ _ Hfound) as (before & after & -> & Hp & Hbefore).
      rewrite (replaceFirst_first _ _ _ _ _ Hbefore Hp).
      split; [|assumption]. apply find_first; [assumption|].
      unfold image_at, image_is, image_in. rewrite Hid1, Halb1, Hid, Halb.
      now rewrite !String.eqb_refl.
    - rewrite find_replaceFirst_other; [now apply Hstay | |].
      + intros x Hx. destruct (image_at imageId albumId x) eqn:Hpx; [|reflexivity].
        destruct (image_at_other imageId albumId imageId alb0 x x
                    eq_refl eq_refl Hx Hpx). congruence.
      + unfold image_at, image_in. rewrite Halb1, Halb0.
        apply andb_false_iff. right. apply String.eqb_neq. congruence.
    - rewrite find_replaceFirst_other; [now apply Hstay | |].
      + intros x Hx. destruct (image_at imageId albumId x) eqn:Hpx; [|reflexivity].
        destruct (image_at_other imageId albumId id0 alb0 x x
                    eq_refl eq_refl Hx Hpx). congruence.
      + unfold image_at, image_is. rewrite Hid1, Hid0.
        apply andb_false_iff. left. apply String.eqb_neq. congruence. }
  destruct Hc as [|new|id0 alb0 i0 b Hfound0|id0 alb0 i0 c Hfound0|gone|purged].
  - right. now apply Hstay.
  - right. apply Hstay. now apply find_app_found.
  - right. apply (Hedit id0 alb0 i0); [assumption | reflexivity | reflexivity|].
    unfold image_later. cbn. repeat (split; [reflexivity|]).
    exists []. now rewrite app_nil_r.
  - right. apply (Hedit id0 alb0 i0); [assumption | reflexivity | reflexivity|].
    unfold image_later. cbn. repeat (split; [reflexivity|]). now exists [c].
  - destruct (string_dec gone imageId) as [-> | Hne].
    + left. destruct (find_split _ _ _ Hfound) as (before & after & Hsplit & Hp & _).
      assert (Hothers : forall z, In z (before ++ after) ->
                                  image_is imageId z = false).
      { intros z Hz. destruct (image_is imageId z) eqn:Hzid; [|reflexivity].
        exfalso. apply String.eqb_eq in Hzid.
        rewrite Hsplit, map_app in Hunique. cbn in Hunique.
        apply NoDup_remove_2 in Hunique. apply Hunique.
        rewrite <- map_app, Hid, <- Hzid. now apply in_map. }
      rewrite Hsplit, removeFirst_first.
      * apply find_none_iff. intros z Hz. unfold image_at.
        now rewrite (Hothers z Hz).
      * intros z Hz. apply Hothers. apply in_or_app. now left.
      * now apply String.eqb_eq.
    + right. rewrite find_removeFirst_other; [now apply Hstay|].
      intros x Hx. unfold image_at. apply andb_false_iff. left.
      apply String.eqb_eq in Hx. apply String.eqb_neq. congruence.
  - destruct (string_dec purged albumId) as [-> | Hne].
    + left. apply find_none_iff. intros z Hz. apply filter_In in Hz.
      destruct Hz as [_ Hz]. apply negb_true_iff in Hz.
      unfold image_at. rewrite Hz. apply andb_false_r.
    + right. rewrite find_filter_kept; [now apply Hstay|].
      intros x Hx. unfold image_at in Hx. apply andb_true_iff in Hx.
      destruct Hx as [_ Hx]. apply image_in_iff in Hx.
      apply negb_true_iff. unfold image_in. apply String.eqb_neq. congruence.
Qed.

(** X20: whatever call is served, an image of the database is either
    deleted or still found under its identifiers with the same name,
    URL, storage handle, tags, person, size, upload time and uploader;
    its comments are those it had, in order, possibly followed by new
    ones.  No route edits or removes a comment. *)
Theorem image_fixed_comments_appended (D : Driver) (req : Request) (c : Call)
  (db : Db) (imageId albumId : string) (image : Image.t)
  (Hunique : NoDup (map Image.imageId (images db)))
  (Hfound : find (image_at imageId albumId) (images db) = Some image) :
  let db' := snd (serve D req c db) in
  find (image_at imageId albumId) (images db') = None \/
  exists image',
    find (image_at imageId albumId) (images db') = Some image' /\
    image_later image image'.
Proof.
  intros db'. subst db'.
  apply (images_evolve_keeps (images db)); [|assumption|assumption].
  unfold serve. destruct (verifyJWT D req) as [response | user]; cbn.
  - apply evolve_kept.
  - apply route_images_evolve.
Qed.

Lemma image_fixed_comments_appended_witness :
  NoDup (map Image.imageId (images tripDb)) /\
  exists image',
    find (image_at "i1" "a1")
      (images (snd (serve strictDriver (withCookie "bob.jwt")
                      (AddComment 40 "a1" "i1" (Js.Str "more")) tripDb)))
    = Some image' /\
    Image.uploadedBy image' = "u-bob" /\
    exists added, Image.comments image' = Image.comments sunset ++ added.
Proof.
  assert (Hunique : NoDup (map Image.imageId (images tripDb))).
  { cbn. repeat constructor; cbn; [intros [H | []]; discriminate | intros []]. }
  split; [exact Hunique|].
  destruct (image_fixed_comments_appended strictDriver (withCookie "bob.jwt")
              (AddComment 40 "a1" "i1" (Js.Str "more")) tripDb "i1" "a1" sunset
              Hunique eq_refl) as [Hgone | (image' & Hfind & Hlater)].
  - cbn in Hgone. discriminate.
  - exists image'. split; [exact Hfind|].
    destruct Hlater as (_ & _ & _ & _ & _ & _ & _ & _ & _ & _ & Hby & Hadded).
    split; [exact Hby | exact Hadded].
Defined.

(** ** Deleting an album spares the others; reading writes nothing *)

(** X21: when the owner deletes an album, every album with another
    identifier is found as before, and so is every image of another
    album. *)
Theorem deleteAlbum_spares_other_albums (user : User.t) (albumId : string)
  (album : Album.t) (db : Db)
  (Hfound : find (album_is albumId) (albums db) = Some album)
  (Howner : Album.ownerId album = User.userId user) :
  let db' := snd (deleteAlbum user albumId db) in
  (forall other,
      other <> albumId ->
      find (album_is other) (albums db') = find (album_is other) (albums db)) /\
  (forall other imageId,
      other <> albumId ->
      find (image_at imageId other) (images db')
      = find (image_at imageId other) (images db)).
Proof.
  intros db'. subst db'. unfold deleteAlbum. handler.
  rewrite Hfound; cbn. rewrite Howner, String.eqb_refl; cbn. split.
  - intros other Hother. apply find_removeFirst_other.
    intros x Hx. now apply (album_is_other other albumId).
  - intros other imageId Hother. apply find_filter_kept.
    intros x Hx. unfold image_at in Hx. apply andb_true_iff in Hx.
    destruct Hx as [_ Hx]. apply image_in_iff in Hx.
    apply negb_true_iff. unfold image_in. apply String.eqb_neq. congruence.
Qed.

Lemma deleteAlbum_spares_other_albums_witness :
  find (album_is "a2")
    (albums (snd (deleteAlbum alice "a1"
                    (snd (createAlbum strictDriver carol "a2" 60 (Js.Str "Hills")
                            Js.Undefined tripDb)))))
  = find (album_is "a2")
      (albums (snd (createAlbum strictDriver carol "a2" 60 (Js.Str "Hills")
                      Js.Undefined tripDb))).
Proof.
  apply (deleteAlbum_spares_other_albums alice "a1" trip
           (snd (createAlbum strictDriver carol "a2" 60 (Js.Str "Hills")
                   Js.Undefined tripDb)) eq_refl eq_refl).
  discriminate.
Defined.

(** X22: the five reading routes (one album, the album listing, the
    image listing, the favourites, the URL of an image) leave the
    database as it is, whatever they answer. *)
Theorem reading_routes_write_nothing (user : User.t) (albumId imageId : string)
  (tags : Js.Value) (db : Db) :
  snd (getAlbum user albumId db) = db /\
  snd (listAlbums user db) = db /\
  snd (listImages user albumId tags db) = db /\
  snd (listFavorites user albumId db) = db /\
  snd (getImageUrl user albumId imageId db) = db.
Proof.
  repeat split.
  - unfold getAlbum. handler. repeat (split_match; cbn); reflexivity.
  - unfold listImages, try_catch_json, tagArray, Image_find_sorted. handler.
    repeat (split_match; cbn); reflexivity.
  - unfold listFavorites, try_catch_json, Image_find_sorted. handler.
    repeat (split_match; cbn); reflexivity.
  - unfold getImageUrl. handler. repeat (split_match; cbn); reflexivity.
Qed.

(** ** The upload middleware in front of the handler *)


